(** * Greenwashing-Guardian: the rules engine

    A shallow embedding of [backend/app/core/rules_engine.py] and the
    properties of its annotation pass.

    Python strings are sequences of Unicode code points; they are modelled
    as lists of code points ([N]).  The part of the [re] module the engine
    relies on (literals under IGNORECASE, character classes, single
    character repeats, alternation, groups, negative lookahead, a one
    character lookbehind, [search], [split] and [sub]) is modelled as a
    backtracking matcher that lists the end positions of the matches of a
    pattern in the order in which the backtracking engine finds them. *)

From Stdlib Require Import String Ascii DecimalString Floats.
From Stdlib Require Import List NArith ZArith Arith Lia Bool Sorted Setoid.
Import ListNotations.

(** ** Code points and strings *)

Abbreviation char := N (only parsing).
Abbreviation pystr := (list N) (only parsing).

(** A literal of the source, as code points (ASCII literals only). *)
Definition str (s : string) : pystr := map N_of_ascii (list_ascii_of_string s).

Definition NL : char := 10%N.
Definition SP : char := 32%N.
Definition TAB : char := 9%N.
Definition NBSP : char := 160%N.

Module Unicode.

(** [str.isspace], which is also what [\s] and [str.strip()] test. *)
Definition is_space (c : char) : bool :=
  ((9 <=? c) && (c <=? 13) || (28 <=? c) && (c <=? 32)
   || (c =? 133) || (c =? 160) || (c =? 5760)
   || (8192 <=? c) && (c <=? 8202)
   || (c =? 8232) || (c =? 8233) || (c =? 8239) || (c =? 8287)
   || (c =? 12288))%N.

(** The code points of the digit zero of every decimal script (general
    category Nd, Unicode 14.0); each is followed by its digits one to nine. *)
Definition decimal_zeros : list N :=
  [ 0x30; 0x660; 0x6f0; 0x7c0; 0x966; 0x9e6; 0xa66; 0xae6; 0xb66; 0xbe6;
    0xc66; 0xce6; 0xd66; 0xde6; 0xe50; 0xed0; 0xf20; 0x1040; 0x1090;
    0x17e0; 0x1810; 0x1946; 0x19d0; 0x1a80; 0x1a90; 0x1b50; 0x1bb0;
    0x1c40; 0x1c50; 0xa620; 0xa8d0; 0xa900; 0xa9d0; 0xa9f0; 0xaa50;
    0xabf0; 0xff10; 0x104a0; 0x10d30; 0x11066; 0x110f0; 0x11136; 0x111d0;
    0x112f0; 0x11450; 0x114d0; 0x11650; 0x116c0; 0x11730; 0x118e0;
    0x11950; 0x11c50; 0x11d50; 0x11da0; 0x16a60; 0x16ac0; 0x16b50;
    0x1d7ce; 0x1d7d8; 0x1d7e2; 0x1d7ec; 0x1d7f6; 0x1e140; 0x1e2f0;
    0x1e950; 0x1fbf0 ]%N.

(** [\d] on a [str] pattern: a decimal digit of any script. *)
Definition is_decimal (c : char) : bool :=
  existsb (fun z => (z <=? c) && (c <? z + 10))%N decimal_zeros.

Definition is_ascii_upper (c : char) : bool := ((65 <=? c) && (c <=? 90))%N.
Definition is_ascii_lower (c : char) : bool := ((97 <=? c) && (c <=? 122))%N.

Definition ascii_lower (c : char) : char :=
  if is_ascii_upper c then (c + 32)%N else c.

(** Code points outside ASCII that IGNORECASE identifies with an ASCII
    letter: those whose lower case is the letter (U+0130 for i, the Kelvin
    sign U+212A for k) and the lower case letters with the same upper case
    (dotless i U+0131, long s U+017F). *)
Definition case_extras (lo : char) : list char :=
  if (lo =? 105)%N then [0x130; 0x131]%N
  else if (lo =? 107)%N then [0x212a]%N
  else if (lo =? 115)%N then [0x17f]%N
  else [].

(** A literal [p] of an IGNORECASE pattern against the character [c]. *)
Definition ignorecase_eq (p c : char) : bool :=
  let lo := ascii_lower p in
  if is_ascii_lower lo
  then (c =? lo)%N || (c =? lo - 32)%N || existsb (N.eqb c) (case_extras lo)
  else (c =? p)%N.

End Unicode.

(** ** The pattern language *)

Module Re.

(** What a pattern tests one character with. *)
Inductive cset : Type :=
| Lit (c : char)           (* a literal character *)
| OneOf (cs : pystr)       (* [...] *)
| Dot                      (* .  (no DOTALL: anything but a newline) *)
| Space                    (* \s *)
| Digit.                   (* \d *)

Inductive re : Type :=
| Eps
| Chr (cs : cset)
| Seq (r1 r2 : re)
| Alt (r1 r2 : re)
| Rep (cs : cset) (lo : nat) (hi : option nat) (greedy : bool)
| Group (r : re)
| NegAhead (r : re)        (* (?!r) *)
| Behind (cs : cset).      (* (?<=c) for a one character class c *)

(** A position in the subject: the characters before it, nearest first, and
    the characters after it. *)
Abbreviation cursor := (list N * list N)%type (only parsing).

Definition cmatch (ic : bool) (cs : cset) (c : char) : bool :=
  match cs with
  | Lit p => if ic then Unicode.ignorecase_eq p c else (c =? p)%N
  | OneOf l =>
      existsb (fun p => if ic then Unicode.ignorecase_eq p c else (c =? p)%N) l
  | Dot => negb (c =? NL)%N
  | Space => Unicode.is_space c
  | Digit => Unicode.is_decimal c
  end.

Definition can_take (hi : option nat) : bool :=
  match hi with Some O => false | _ => true end.

(** A repeat of a one character item, between [lo] and [hi] times: the
    positions where it may stop, the longest first when greedy and the
    shortest first when lazy. *)
Fixpoint repeat_one (test : char -> bool) (greedy : bool) (lo : nat)
    (hi : option nat) (b a : pystr) {struct a} : list cursor :=
  let stop := match lo with O => [(b, a)] | S _ => [] end in
  let more :=
    match a with
    | x :: a' =>
        if test x && can_take hi
        then repeat_one test greedy (pred lo) (option_map pred hi) (x :: b) a'
        else []
    | [] => []
    end in
  if greedy then more ++ stop else stop ++ more.

(** The end positions of the matches of [r] that start at [c], in the
    order the backtracking engine reaches them. *)
Fixpoint ends (ic : bool) (r : re) (c : cursor) {struct r} : list cursor :=
  match r with
  | Eps => [c]
  | Chr cs =>
      match snd c with
      | x :: a => if cmatch ic cs x then [(x :: fst c, a)] else []
      | [] => []
      end
  | Seq r1 r2 => flat_map (ends ic r2) (ends ic r1 c)
  | Alt r1 r2 => ends ic r1 c ++ ends ic r2 c
  | Rep cs lo hi g => repeat_one (cmatch ic cs) g lo hi (fst c) (snd c)
  | Group r1 => ends ic r1 c
  | NegAhead r1 => match ends ic r1 c with [] => [c] | _ :: _ => [] end
  | Behind cs =>
      match fst c with
      | x :: _ => if cmatch ic cs x then [c] else []
      | [] => []
      end
  end.

(** A literal string. *)
Fixpoint lit (s : pystr) : re :=
  match s with
  | [] => Eps
  | c :: s' => Seq (Chr (Lit c)) (lit s')
  end.

Definition Str (s : string) : re := lit (str s).

(** A compiled pattern: [re.compile(p)] or [re.compile(p, re.IGNORECASE)]. *)
Record Pattern : Type := compile { pat : re; ignorecase : bool }.

(** The first match at [c]; after an empty match the scanners of [split]
    and [sub] ask for a match that advances ([adv]). *)
Definition first_end (adv : bool) (c : cursor) (es : list cursor)
  : option cursor :=
  find (fun e => negb adv || (length (snd e) <? length (snd c))) es.

(** [search] from a position: the characters skipped before the leftmost
    match and the position where that match ends. *)
Fixpoint search_from (p : Pattern) (adv : bool) (b a : pystr) {struct a}
  : option (pystr * cursor) :=
  match first_end adv (b, a) (ends (ignorecase p) (pat p) (b, a)) with
  | Some e => Some ([], e)
  | None =>
      match a with
      | [] => None
      | x :: a' =>
          match search_from p false (x :: b) a' with
          | Some (skipped, e) => Some (x :: skipped, e)
          | None => None
          end
      end
  end.

(** [p.search(s)], as a truth value. *)
Definition search (p : Pattern) (s : pystr) : bool :=
  match search_from p false [] s with Some _ => true | None => false end.

Definition is_empty_match (a skipped : pystr) (e : cursor) : bool :=
  length (snd e) =? length a - length skipped.

(** The loop of [p.split(s)] for a pattern whose groups the caller does not
    read: the text between successive matches. *)
Fixpoint split_loop (fuel : nat) (p : Pattern) (adv : bool) (b a : pystr)
  : list pystr :=
  match fuel with
  | O => [a]
  | S fuel' =>
      match search_from p adv b a with
      | None => [a]
      | Some (skipped, e) =>
          skipped :: split_loop fuel' p (is_empty_match a skipped e)
                       (fst e) (snd e)
      end
  end.

(** The loop of [p.sub(repl, s)] for a replacement without escapes. *)
Fixpoint sub_loop (fuel : nat) (p : Pattern) (repl : pystr) (adv : bool)
    (b a : pystr) : pystr :=
  match fuel with
  | O => a
  | S fuel' =>
      match search_from p adv b a with
      | None => a
      | Some (skipped, e) =>
          skipped ++ repl ++
          sub_loop fuel' p repl (is_empty_match a skipped e) (fst e) (snd e)
      end
  end.

(** Every turn of the loops moves forward in the subject or follows an
    empty match by one that advances, so this many turns are enough. *)
Definition turns (adv : bool) (a : pystr) : nat :=
  2 * length a + (if adv then 0 else 1).

Definition split (p : Pattern) (s : pystr) : list pystr :=
  split_loop (turns false s) p false [] s.

Definition sub (p : Pattern) (repl s : pystr) : pystr :=
  sub_loop (turns false s) p repl false [] s.

(** Patterns without lookaround, and the words they denote: the
    declarative reading of a pattern, against which the matcher is proved. *)
Fixpoint plain (r : re) : bool :=
  match r with
  | Eps | Chr _ | Rep _ _ _ _ => true
  | Seq r1 r2 | Alt r1 r2 => plain r1 && plain r2
  | Group r1 => plain r1
  | NegAhead _ | Behind _ => false
  end.

Fixpoint lang (ic : bool) (r : re) (w : pystr) : Prop :=
  match r with
  | Eps => w = []
  | Chr cs => exists x, w = [x] /\ cmatch ic cs x = true
  | Seq r1 r2 => exists w1 w2, w = w1 ++ w2 /\ lang ic r1 w1 /\ lang ic r2 w2
  | Alt r1 r2 => lang ic r1 w \/ lang ic r2 w
  | Rep cs lo hi _ =>
      forallb (cmatch ic cs) w = true /\ lo <= length w /\
      (forall h, hi = Some h -> length w <= h)
  | Group r1 => lang ic r1 w
  | NegAhead _ | Behind _ => False
  end.

End Re.

Import Re.

Declare Scope re_scope.
Delimit Scope re_scope with re.
Bind Scope re_scope with re.
Infix ">>" := Seq (at level 55, right associativity) : re_scope.
Infix "<|>" := Alt (at level 60, right associativity) : re_scope.

(** [c*], [c+], [.*] and [.*?] *)
Definition star (cs : cset) : re := Rep cs 0 None true.
Definition plus (cs : cset) : re := Rep cs 1 None true.
Definition dotstar : re := Rep Dot 0 None true.
Definition dotstar_lazy : re := Rep Dot 0 None false.

(** ** Data types *)

Inductive Category : Type := vague | lack_metrics | misleading | cherry | no_3rd.

Definition Category_eqb (c1 c2 : Category) : bool :=
  match c1, c2 with
  | vague, vague | lack_metrics, lack_metrics | misleading, misleading
  | cherry, cherry | no_3rd, no_3rd => true
  | _, _ => false
  end.

Record RuleHit : Type := mkRuleHit {
  cat : Category;      (* one of the five categories *)
  rule_id : Z;         (* synthetic id (stable per rule) *)
  text : pystr;        (* matched sentence snippet *)
  sent_idx : nat       (* sentence index *)
}.

Record RuleScanResult : Type := mkRuleScanResult {
  hits : list RuleHit;
  notes : pystr
}.

(** ** Minimal rule set *)

Local Open Scope re_scope.

(** (aim|seek|strive|endeavor|commit|pledge|work towards|aspire|intend|plan to) *)
Definition VAGUE_VERBS : re :=
  Group (Str "aim" <|> Str "seek" <|> Str "strive" <|> Str "endeavor"
         <|> Str "commit" <|> Str "pledge" <|> Str "work towards"
         <|> Str "aspire" <|> Str "intend" <|> Str "plan to").

(** (target|goal|objective|commitment) *)
Definition TARGET_WORDS : re :=
  Group (Str "target" <|> Str "goal" <|> Str "objective" <|> Str "commitment").

(** (20\d{2}|baseline|base\s*year|reference\s*year|from\s*20\d{2}) *)
Definition YEAR_OR_BASELINE : re :=
  Group (Str "20" >> Rep Digit 2 (Some 2) true
         <|> Str "baseline"
         <|> Str "base" >> star Space >> Str "year"
         <|> Str "reference" >> star Space >> Str "year"
         <|> Str "from" >> star Space >> Str "20" >> Rep Digit 2 (Some 2) true).

(** (renewable electricity|green electricity) *)
Definition SCOPE2_AMBIG : re :=
  Group (Str "renewable electricity" <|> Str "green electricity").

(** (market[- ]based|location[- ]based|dual reporting|residual mix|REC|GO|guarantee of origin|retire|cancel) *)
Definition SCOPE2_QUAL : re :=
  Group (Str "market" >> Chr (OneOf (str "- ")) >> Str "based"
         <|> Str "location" >> Chr (OneOf (str "- ")) >> Str "based"
         <|> Str "dual reporting" <|> Str "residual mix" <|> Str "REC"
         <|> Str "GO" <|> Str "guarantee of origin" <|> Str "retire"
         <|> Str "cancel").

(** (avoided emissions|enabled emissions) *)
Definition AVOIDED_EMISSIONS : re :=
  Group (Str "avoided emissions" <|> Str "enabled emissions").

(** (scope\s*1|scope\s*2|scope\s*3) *)
Definition SCOPE_MENTION : re :=
  Group (Str "scope" >> star Space >> Str "1"
         <|> Str "scope" >> star Space >> Str "2"
         <|> Str "scope" >> star Space >> Str "3").

(** (carbon neutral|climate neutral).*?(via|through|using).*?(offset|credit)s? *)
Definition NEUTRAL_OFFSET : re :=
  Group (Str "carbon neutral" <|> Str "climate neutral")
  >> dotstar_lazy
  >> Group (Str "via" <|> Str "through" <|> Str "using")
  >> dotstar_lazy
  >> Group (Str "offset" <|> Str "credit")
  >> Rep (Lit 115%N) 0 (Some 1) true.

(** (PAS\s*2060|Verra|Gold\s*Standard|ICROA|ISAE\s*3000|AA1000) *)
Definition THIRD_PARTY_STD : re :=
  Group (Str "PAS" >> star Space >> Str "2060"
         <|> Str "Verra"
         <|> Str "Gold" >> star Space >> Str "Standard"
         <|> Str "ICROA"
         <|> Str "ISAE" >> star Space >> Str "3000"
         <|> Str "AA1000").

(** Synthetic rules: (category, compiled regex, id) *)
Definition _RULES : list (Category * Pattern * Z) :=
  [ (vague, compile VAGUE_VERBS true, 901%Z);
    (lack_metrics,
     compile (TARGET_WORDS >> NegAhead (dotstar >> YEAR_OR_BASELINE)) true,
     102%Z);
    (misleading,
     compile (SCOPE2_AMBIG >> NegAhead (dotstar >> SCOPE2_QUAL)) true, 402%Z);
    (misleading,
     compile (AVOIDED_EMISSIONS
              >> NegAhead (dotstar
                           >> Group (Str "separate" <|> Str "disclose"
                                     <|> Str "outside" >> plus Space
                                         >> Str "inventory"))) true,
     303%Z);
    (cherry,
     compile (Group (Str "only" >> plus Space >> Str "scope" >> star Space
                       >> Str "1" >> star Space >> Str "/" >> star Space
                       >> Str "2"
                     <|> Str "scope" >> star Space >> Str "3" >> star Space
                         >> Group (Str "excluded" <|> Str "later"
                                   <|> Str "deferred"))) true,
     202%Z);
    (no_3rd,
     compile (NEUTRAL_OFFSET >> NegAhead (dotstar >> THIRD_PARTY_STD)) true,
     302%Z) ].

(** ** Helpers *)

(** (?<=[\.\?\!])\s+|\n+ *)
Definition _SENT_SPLIT : Pattern :=
  compile (Behind (OneOf (str ".?!")) >> plus Space <|> plus (Lit NL)) false.

Local Close Scope re_scope.

(** [s.replace(old, new)] for one character strings. *)
Definition replace_char (old new : char) (s : pystr) : pystr :=
  map (fun c => if (c =? old)%N then new else c) s.

Fixpoint lstrip (s : pystr) : pystr :=
  match s with
  | c :: s' => if Unicode.is_space c then lstrip s' else s
  | [] => []
  end.

Definition rstrip (s : pystr) : pystr := rev (lstrip (rev s)).

(** [s.strip()] *)
Definition strip (s : pystr) : pystr := rstrip (lstrip s).

(** Truth value of a string: the empty string is false. *)
Definition truthy (s : pystr) : bool :=
  match s with [] => false | _ :: _ => true end.

(** Basic OCR / punctuation normalization.  [None] is Python's [None]. *)
Definition _normalize (text : option pystr) : pystr :=
  match text with
  | None => []
  | Some t0 =>
      if negb (truthy t0) then []
      else
        let t := replace_char NBSP SP t0 in
        let t := sub (compile (plus (OneOf [SP; TAB])) false) [SP] t in
        strip t
  end.

(** Naive sentence splitter. *)
Definition _split_sentences (text : option pystr) : list pystr :=
  let text := _normalize text in
  if negb (truthy text) then []
  else
    let parts := split _SENT_SPLIT text in
    map strip (filter (fun p => truthy p && truthy (strip p)) parts).

(** ** Public API *)

Fixpoint enumerate_from {A : Type} (i : nat) (l : list A) : list (nat * A) :=
  match l with
  | [] => []
  | x :: l' => (i, x) :: enumerate_from (S i) l'
  end.

Definition enumerate {A : Type} (l : list A) : list (nat * A) :=
  enumerate_from 0 l.

(** [str(n)] for a length. *)
Definition repr_nat (n : nat) : pystr :=
  str (NilEmpty.string_of_uint (Nat.to_uint n)).

(** The body of the inner loop: what one rule appends for one sentence. *)
Definition rule_hits (i : nat) (sent : pystr) (has_third_party : bool)
    (rule : Category * Pattern * Z) : list RuleHit :=
  let '(cat, rx, rule_id) := rule in
  if Category_eqb cat no_3rd && has_third_party then []
  else if search rx sent
       then [mkRuleHit cat rule_id (firstn 400 sent) i]
       else [].

(** The body of the outer loop: what one sentence appends. *)
Definition sentence_hits (isent : nat * pystr) : list RuleHit :=
  let '(i, sent) := isent in
  let has_third_party := search (compile THIRD_PARTY_STD true) sent in
  flat_map (rule_hits i sent has_third_party) _RULES.

(** Annotate evidence only (no scoring). *)
Definition scan (text : option pystr) (company : option pystr)
  : RuleScanResult :=
  let sents := _split_sentences text in
  let hits := flat_map sentence_hits (enumerate sents) in
  let notes :=
    (str "sentences=" ++ repr_nat (length sents) ++ str "; hits="
     ++ repr_nat (length hits) ++ str "; whitelist_in_sent=third_party")%list in
  mkRuleScanResult hits notes.

(** The values of the dictionary [score] returns. *)
#[local] Set Warnings "-register-all".
Inductive pyval : Type :=
| PInt (z : Z)
| PFloat (f : float)
| PStr (s : string)
| PList (l : list pyval)
| PDict (kv : list (string * pyval)).

(** Legacy stub to satisfy old callers: always zeros. *)
Definition score (text : pystr) : pyval :=
  let breakdown :=
    PList
      [ PDict [("type", PStr "Vague or unsubstantiated claims");
               ("value", PFloat 0%float)];
        PDict [("type", PStr "Lack of specific metrics or targets");
               ("value", PFloat 0%float)];
        PDict [("type", PStr "Misleading terminology");
               ("value", PFloat 0%float)];
        PDict [("type", PStr "Cherry-picked data");
               ("value", PFloat 0%float)];
        PDict [("type", PStr "Absence of third-party verification");
               ("value", PFloat 0%float)] ]%string in
  PDict
    [ ("radar",
       PDict [("vague", PInt 0); ("lack_metrics", PInt 0);
              ("misleading", PInt 0); ("cherry", PInt 0);
              ("no_3rd", PInt 0)]);
      ("overall", PFloat 0%float);
      ("overall_greenwashing_score", PDict [("score", PFloat 0%float)]);
      ("breakdown", breakdown);
      ("engine", PStr "legacy-stub") ]%string.

(** * The vocabulary of the properties *)

(** ** The order of the hits *)

Fixpoint index_of (rid : Z) (rules : list (Category * Pattern * Z)) : nat :=
  match rules with
  | [] => 0
  | r :: rules' => if (snd r =? rid)%Z then 0 else S (index_of rid rules')
  end.

(** The position in the rule table of the rule with a given id. *)
Definition rule_position (rid : Z) : nat := index_of rid _RULES.

(** Sentence order, then rule-table order. *)
Definition hit_before (h1 h2 : RuleHit) : Prop :=
  sent_idx h1 < sent_idx h2 \/
  (sent_idx h1 = sent_idx h2 /\
   rule_position (rule_id h1) < rule_position (rule_id h2)).

(** ** What the rules look for, as their patterns read a sentence *)

(** [w] is the literal [p] up to the case of its letters, as IGNORECASE
    compares them. *)
Definition same_text (p w : pystr) : Prop :=
  Forall2 (fun x y => Unicode.ignorecase_eq x y = true) p w.

Definition spaces (ws : pystr) : Prop := forallb Unicode.is_space ws = true.

(** [P] holds of some stretch of [s]. *)
Definition occurs (P : pystr -> Prop) (s : pystr) : Prop :=
  exists pre w post, s = pre ++ w ++ post /\ P w.

(** *** Third-party standards *)

(** The standards the whitelist recognizes, as they are written. *)
Definition standard_markers : list pystr :=
  [ str "PAS 2060"; str "Verra"; str "Gold Standard"; str "ICROA";
    str "ISAE 3000"; str "AA1000" ].

(** The sentence holds one of the markers, whatever the case of its
    letters. *)
Definition mentions_standard (sent : pystr) : Prop :=
  exists marker, In marker standard_markers /\ occurs (same_text marker) sent.

(** *** Targets without a year or a baseline *)

Definition is_target_word (w : pystr) : Prop :=
  same_text (str "target") w \/ same_text (str "goal") w \/
  same_text (str "objective") w \/ same_text (str "commitment") w.

(** A year-like token: "20" and two more digits. *)
Definition year_like (w : pystr) : Prop :=
  exists d1 d2,
    w = str "20" ++ [d1; d2] /\
    Unicode.is_decimal d1 = true /\ Unicode.is_decimal d2 = true.

(** Two words with any white space, or none, between them. *)
Definition two_words (a b : string) (w : pystr) : Prop :=
  exists w1 ws w2,
    w = w1 ++ ws ++ w2 /\ same_text (str a) w1 /\ spaces ws /\
    same_text (str b) w2.

(** "baseline" or "base year" *)
Definition baseline_reference (w : pystr) : Prop :=
  same_text (str "baseline") w \/ two_words "base" "year" w.

(** "reference year", or "from" and a year *)
Definition reference_year_phrase (w : pystr) : Prop :=
  two_words "reference" "year" w \/
  exists w1 ws y,
    w = w1 ++ ws ++ y /\ same_text (str "from") w1 /\ spaces ws /\
    year_like y.

(** What the rest of a sentence may hold to back a target. *)
Definition mitigated (rest : pystr) : Prop :=
  occurs year_like rest \/ occurs baseline_reference rest \/
  occurs reference_year_phrase rest.

(** A target word with nothing after it in the sentence to back it, as
    the pattern of rule 102 reads a sentence: the word and what backs it
    are stretches of the sentence, inside a longer word or number as well
    ("objective" in "objectively", "2000" in "12000"). *)
Definition lacks_metrics (sent : pystr) : Prop :=
  exists pre w rest,
    sent = pre ++ w ++ rest /\ is_target_word w /\ ~ mitigated rest.

(** *** Rule 102 in the words of the specification *)

(** The specification speaks of a target word and of a year-like token, a
    four-digit year beginning with "20".  Read to the letter, a sentence is
    its words (the runs of ASCII letters and digits, in lower case), a
    target word is one of them, and a year is a word of four digits. *)
Definition is_ascii_alnum (c : char) : bool :=
  Unicode.is_ascii_lower c || Unicode.is_ascii_upper c
  || ((48 <=? c) && (c <=? 57))%N.

Fixpoint words_from (cur : pystr) (s : pystr) : list pystr :=
  match s with
  | [] => match cur with [] => [] | _ :: _ => [rev cur] end
  | c :: s' =>
      if is_ascii_alnum c then words_from (Unicode.ascii_lower c :: cur) s'
      else match cur with
           | [] => words_from [] s'
           | _ :: _ => rev cur :: words_from [] s'
           end
  end.

Definition words (s : pystr) : list pystr := words_from [] s.

Fixpoint pystr_eqb (a b : pystr) : bool :=
  match a, b with
  | [], [] => true
  | x :: a', y :: b' => (x =? y)%N && pystr_eqb a' b'
  | _, _ => false
  end.

Definition is_word (lit : string) (w : pystr) : bool := pystr_eqb (str lit) w.

Definition is_target_token (w : pystr) : bool :=
  is_word "target" w || is_word "goal" w || is_word "objective" w
  || is_word "commitment" w.

(** A four-digit year beginning with "20". *)
Definition is_year_token (w : pystr) : bool :=
  match w with
  | [a; b; c; d] =>
      ((a =? 50) && (b =? 48) && (48 <=? c) && (c <=? 57)
       && (48 <=? d) && (d <=? 57))%N
  | _ => false
  end.

(** Some word of [ws] is a year, "baseline", or "base" or "reference"
    before "year". *)
Fixpoint backed_by_words (ws : list pystr) : bool :=
  match ws with
  | [] => false
  | w :: ws' =>
      is_year_token w || is_word "baseline" w
      || ((is_word "base" w || is_word "reference" w)
          && match ws' with w2 :: _ => is_word "year" w2 | [] => false end)
      || backed_by_words ws'
  end.

Fixpoint target_unbacked (ws : list pystr) : bool :=
  match ws with
  | [] => false
  | w :: ws' =>
      (is_target_token w && negb (backed_by_words ws')) || target_unbacked ws'
  end.

(** A target word appears in the sentence with no year-like token,
    baseline reference or reference-year phrase after it. *)
Definition lacks_metrics_as_worded (sent : pystr) : bool :=
  target_unbacked (words sent).

(** ** Runs of characters *)

(** The longest run of characters passing a test at the start of a
    string, and what follows it. *)
Fixpoint take_run (test : char -> bool) (a : pystr) : pystr :=
  match a with
  | x :: a' => if test x then x :: take_run test a' else []
  | [] => []
  end.

Fixpoint drop_run (test : char -> bool) (a : pystr) : pystr :=
  match a with
  | x :: a' => if test x then drop_run test a' else a
  | [] => []
  end.

(** What the class of the pattern of [_normalize] accepts: a space or a
    tab. *)
Definition is_blank (c : char) : bool := cmatch false (OneOf [SP; TAB]) c.

(** [ \t]+ *)
Definition blanks : Pattern := compile (plus (OneOf [SP; TAB])) false.

(** Every run of blanks replaced by one space: what [_normalize] asks of
    [sub]. *)
Fixpoint collapse (a : pystr) : pystr :=
  match a with
  | [] => []
  | x :: a' =>
      if is_blank x
      then match a' with
           | y :: _ => if is_blank y then collapse a' else SP :: collapse a'
           | [] => [SP]
           end
      else x :: collapse a'
  end.

(** The characters that are not white space. *)
Definition visible (s : pystr) : pystr :=
  filter (fun c => negb (Unicode.is_space c)) s.

(** ** Where sentences are cut *)

(** A sentence-terminal mark: what the lookbehind of [_SENT_SPLIT] tests. *)
Definition ends_sentence (c : char) : bool :=
  cmatch false (OneOf (str ".?!")) c.

(** A separator starts at [x], the character before being [prev]: white
    space after a terminal mark, or a newline. *)
Definition sep_start (prev : option char) (x : char) : bool :=
  match prev with
  | Some y => ends_sentence y && Unicode.is_space x
  | None => false
  end || (x =? NL)%N.

(** No separator starts in [s]: no newline, and no terminal mark followed
    by white space ([prev] is the character before [s]). *)
Fixpoint sep_free (prev : option char) (s : pystr) : bool :=
  match s with
  | [] => true
  | x :: s' => negb (sep_start prev x) && sep_free (Some x) s'
  end.

(** ** What the other rules look for *)

(** The hedging verbs of rule 901. *)
Definition vague_verbs : list pystr :=
  [ str "aim"; str "seek"; str "strive"; str "endeavor"; str "commit";
    str "pledge"; str "work towards"; str "aspire"; str "intend";
    str "plan to" ].

Definition is_vague_verb (w : pystr) : Prop :=
  exists v, In v vague_verbs /\ same_text v w.

(** The terms of rule 402 and what qualifies them. *)
Definition is_scope2_term (w : pystr) : Prop :=
  same_text (str "renewable electricity") w \/
  same_text (str "green electricity") w.

Definition scope2_qualifiers : list pystr :=
  [ str "market-based"; str "market based"; str "location-based";
    str "location based"; str "dual reporting"; str "residual mix";
    str "REC"; str "GO"; str "guarantee of origin"; str "retire";
    str "cancel" ].

Definition is_scope2_qualifier (w : pystr) : Prop :=
  exists q, In q scope2_qualifiers /\ same_text q w.

(** The terms of rule 303 and what discloses them. *)
Definition is_avoided_term (w : pystr) : Prop :=
  same_text (str "avoided emissions") w \/
  same_text (str "enabled emissions") w.

Definition is_separate_disclosure (w : pystr) : Prop :=
  same_text (str "separate") w \/ same_text (str "disclose") w \/
  exists w1 ws w2,
    w = w1 ++ ws ++ w2 /\ same_text (str "outside") w1 /\
    spaces ws /\ ws <> [] /\ same_text (str "inventory") w2.

(** A standard as [THIRD_PARTY_STD] names it: the two-word names with any
    white space, or none, between the words. *)
Definition names_standard (w : pystr) : Prop :=
  two_words "PAS" "2060" w \/ same_text (str "Verra") w \/
  two_words "Gold" "Standard" w \/ same_text (str "ICROA") w \/
  two_words "ISAE" "3000" w \/ same_text (str "AA1000") w.

(** A neutrality claim linked to offsets or credits, as [NEUTRAL_OFFSET]
    reads it: the claim, a linking word after it and an offset word after
    that. *)
Definition offset_claim (w : pystr) : Prop :=
  exists w1 g1 w2 g2 w3,
    w = w1 ++ g1 ++ w2 ++ g2 ++ w3 /\
    (same_text (str "carbon neutral") w1 \/
     same_text (str "climate neutral") w1) /\
    (same_text (str "via") w2 \/ same_text (str "through") w2 \/
     same_text (str "using") w2) /\
    (same_text (str "offset") w3 \/ same_text (str "credit") w3).

(** What rule 202 takes for an admission: "only scope 1/2", or scope 3
    "excluded", "later" or "deferred", with white space as the pattern
    allows it. *)
Definition only_scope_1_2 (w : pystr) : Prop :=
  exists w1 s1 w2 s2 s3 s4,
    w = w1 ++ s1 ++ w2 ++ s2 ++ str "1" ++ s3 ++ str "/" ++ s4 ++ str "2" /\
    same_text (str "only") w1 /\ spaces s1 /\ s1 <> [] /\
    same_text (str "scope") w2 /\ spaces s2 /\ spaces s3 /\ spaces s4.

Definition scope_3_left_out (w : pystr) : Prop :=
  exists w1 s1 s2 w2,
    w = w1 ++ s1 ++ str "3" ++ s2 ++ w2 /\
    same_text (str "scope") w1 /\ spaces s1 /\ spaces s2 /\
    (same_text (str "excluded") w2 \/ same_text (str "later") w2 \/
     same_text (str "deferred") w2).

(** A hit without the index of its sentence. *)
Definition hit_content (h : RuleHit) : Category * Z * pystr :=
  (cat h, rule_id h, text h).

(** * Properties *)

(** ** The matcher *)

Module ReFacts.

Lemma In_by_priority {A : Type} (g : bool) (x : A) (more stop : list A) :
  In x (if g then more ++ stop else stop ++ more) <-> In x stop \/ In x more.
Proof.
  destruct g; rewrite in_app_iff; tauto.
Qed.

Lemma repeat_one_eq (test : char -> bool) g lo hi b a :
  repeat_one test g lo hi b a =
  let stop := match lo with O => [(b, a)] | S _ => [] end in
  let more :=
    match a with
    | x :: a' =>
        if test x && can_take hi
        then repeat_one test g (pred lo) (option_map pred hi) (x :: b) a'
        else []
    | [] => []
    end in
  if g then more ++ stop else stop ++ more.
Proof.
  destruct a; reflexivity.
Qed.

(** A repeat stops after any run of [lo] to [hi] characters that pass the
    test, and nowhere else. *)
Lemma repeat_one_In (test : char -> bool) (g : bool) :
  forall a lo hi b b' a',
    In (b', a') (repeat_one test g lo hi b a) <->
    exists w, a = w ++ a' /\ b' = rev w ++ b /\ forallb test w = true /\
              lo <= length w /\ (forall h, hi = Some h -> length w <= h).
Proof.
  induction a as [|x a IH]; intros lo hi b b' a';
    rewrite repeat_one_eq, In_by_priority.
  - split.
    + intros [H|[]]. destruct lo; [|contradiction].
      destruct H as [H|[]]. inversion H; subst.
      exists []. simpl. repeat split; auto. intros; lia.
    + intros (w & Hw & Hb & _ & Hlo & _).
      symmetry in Hw. apply app_eq_nil in Hw. destruct Hw; subst. simpl in *.
      left. assert (lo = 0) by lia. subst lo. now left.
  - split.
    + intros [H|H].
      * destruct lo; [|contradiction]. destruct H as [H|[]].
        inversion H; subst. exists []. simpl. repeat split; auto. intros; lia.
      * destruct (test x) eqn:Hx; [|contradiction].
        destruct (can_take hi) eqn:Hc; [|contradiction]. simpl in H.
        apply IH in H. destruct H as (w & Hw & Hb & Hall & Hlo & Hhi).
        exists (x :: w). subst. simpl. rewrite Hx, Hall.
        rewrite <- app_assoc. repeat split; auto; try lia.
        intros h Hh. subst hi. destruct h; [discriminate|].
        specialize (Hhi h eq_refl). lia.
    + intros (w & Hw & Hb & Hall & Hlo & Hhi). destruct w as [|y w].
      * simpl in *. subst. left. assert (lo = 0) by lia. subst lo. now left.
      * simpl in Hw. inversion Hw; subst y a. clear Hw. simpl in Hall.
        apply andb_true_iff in Hall. destruct Hall as [Hx Hall].
        right. rewrite Hx.
        assert (Hc : can_take hi = true).
        { destruct hi as [[|h]|]; auto. specialize (Hhi 0 eq_refl).
          simpl in Hhi. lia. }
        rewrite Hc. simpl. apply IH. exists w. subst b'. simpl.
        rewrite <- app_assoc. simpl in Hlo. repeat split; auto; try lia.
        intros h Hh. destruct hi as [h'|]; [|discriminate]. simpl in Hh.
        inversion Hh; subst. specialize (Hhi h' eq_refl). simpl in Hhi. lia.
Qed.

(** Matching only moves forward: a match ends at a position of the same
    subject, after the characters it consumed. *)
Lemma ends_forward (ic : bool) :
  forall r c e, In e (ends ic r c) ->
    exists w, snd c = w ++ snd e /\ fst e = rev w ++ fst c.
Proof.
  induction r; intros c e H; simpl in H.
  - destruct H as [H|[]]. subst. now exists [].
  - destruct c as [b [|x a]]; simpl in H; [contradiction|].
    destruct (cmatch ic cs x); [|contradiction]. destruct H as [H|[]].
    subst. now exists [x].
  - apply in_flat_map in H. destruct H as (c1 & H1 & H2).
    apply IHr1 in H1. apply IHr2 in H2.
    destruct H1 as (w1 & Ha1 & Hb1), H2 as (w2 & Ha2 & Hb2).
    exists (w1 ++ w2). rewrite Ha1, Ha2, Hb2, Hb1, rev_app_distr.
    now rewrite !app_assoc.
  - apply in_app_iff in H. destruct H; auto.
  - destruct e as [b' a']. apply repeat_one_In in H.
    destruct H as (w & Hw & Hb & _). now exists w.
  - auto.
  - destruct (ends ic r c); [|contradiction]. destruct H as [H|[]].
    subst. now exists [].
  - destruct (fst c) as [|x b] eqn:E; [contradiction|].
    destruct (cmatch ic cs x); [|contradiction]. destruct H as [H|[]].
    subst. exists []. now rewrite E.
Qed.

(** The matcher is sound and complete for plain patterns: it stops exactly
    after the prefixes of the subject that the pattern denotes. *)
Lemma ends_plain (ic : bool) :
  forall r, plain r = true ->
  forall b a e,
    In e (ends ic r (b, a)) <->
    exists w, a = w ++ snd e /\ fst e = rev w ++ b /\ lang ic r w.
Proof.
  induction r; intros Hp b a e; simpl in Hp; try discriminate; simpl ends;
    simpl lang.
  - split.
    + intros [H|[]]. subst. now exists [].
    + intros (w & Ha & Hb & Hw). subst w. simpl in *. left.
      destruct e; simpl in *; now subst.
  - split.
    + destruct a as [|x a]; [contradiction|].
      destruct (cmatch ic cs x) eqn:Hx; [|contradiction].
      intros [H|[]]. subst. exists [x]. repeat split; eauto.
    + intros (w & Ha & Hb & x & Hw & Hx). subst w. simpl in Ha. subst a.
      rewrite Hx. left. destruct e; simpl in *; now subst.
  - apply andb_true_iff in Hp. destruct Hp as [Hp1 Hp2].
    rewrite in_flat_map. split.
    + intros ([b1 a1] & H1 & H2).
      apply (IHr1 Hp1) in H1. apply (IHr2 Hp2) in H2. simpl in *.
      destruct H1 as (w1 & Ha1 & Hb1 & L1), H2 as (w2 & Ha2 & Hb2 & L2).
      exists (w1 ++ w2). subst. rewrite rev_app_distr, <- !app_assoc.
      repeat split; eauto.
    + intros (w & Ha & Hb & w1 & w2 & Hw & L1 & L2). subst w.
      exists (rev w1 ++ b, w2 ++ snd e). split.
      * apply (IHr1 Hp1). exists w1. simpl. rewrite <- app_assoc in Ha. auto.
      * apply (IHr2 Hp2). exists w2.
        rewrite rev_app_distr, <- app_assoc in Hb. auto.
  - apply andb_true_iff in Hp. destruct Hp as [Hp1 Hp2].
    rewrite in_app_iff, (IHr1 Hp1), (IHr2 Hp2). split.
    + intros [(w & ? & ? & ?)|(w & ? & ? & ?)]; exists w; auto.
    + intros (w & ? & ? & [?|?]); [left|right]; exists w; auto.
  - destruct e as [b' a']. simpl. rewrite repeat_one_In. split.
    + intros (w & ? & ? & ? & ? & ?). exists w. auto.
    + intros (w & ? & ? & ? & ? & ?). exists w. auto.
  - auto.
Qed.

(** *** Searching *)

Lemma first_end_Some adv c es e :
  first_end adv c es = Some e ->
  In e es /\ (adv = true -> length (snd e) < length (snd c)).
Proof.
  unfold first_end. intros H. apply find_some in H. destruct H as [Hin Hf].
  split; [assumption|]. intros ->. simpl in Hf. now apply Nat.ltb_lt in Hf.
Qed.

Lemma first_end_None adv c es e :
  first_end adv c es = None -> In e es ->
  adv = true /\ length (snd c) <= length (snd e).
Proof.
  unfold first_end. intros H Hin.
  pose proof (find_none _ _ H _ Hin) as Hf. simpl in Hf.
  apply orb_false_iff in Hf. destruct Hf as [Ha Hl].
  apply negb_false_iff in Ha. apply Nat.ltb_ge in Hl. auto.
Qed.

Lemma first_end_free c es :
  first_end false c es = None <-> es = [].
Proof.
  split.
  - destruct es as [|e es]; [reflexivity|]. intros H.
    destruct (first_end_None _ _ _ _ H (or_introl eq_refl)). discriminate.
  - now intros ->.
Qed.

(** What [search_from] returns: the subject is the skipped characters, the
    match, and the rest. *)
Lemma search_from_Some (p : Pattern) :
  forall a adv b skipped e,
    search_from p adv b a = Some (skipped, e) ->
    exists w,
      a = skipped ++ w ++ snd e /\
      fst e = rev w ++ rev skipped ++ b /\
      In e (ends (ignorecase p) (pat p) (rev skipped ++ b, w ++ snd e)) /\
      (adv = true -> skipped = [] -> w <> []).
Proof.
  induction a as [|x a IH]; intros adv b skipped e H; simpl in H.
  - destruct (first_end _ _ _) as [e0|] eqn:F; [|discriminate].
    inversion H; subst. apply first_end_Some in F. destruct F as [Hin Hadv].
    destruct (ends_forward _ _ _ _ Hin) as (w & Hw & Hb). simpl in *.
    exists w. rewrite <- Hw. repeat split; auto.
    intros Ha _. specialize (Hadv Ha). lia.
  - destruct (first_end _ _ _) as [e0|] eqn:F.
    + inversion H; subst. apply first_end_Some in F. destruct F as [Hin Hadv].
      destruct (ends_forward _ _ _ _ Hin) as (w & Hw & Hb). simpl in *.
      exists w. rewrite <- Hw. repeat split; auto.
      intros Ha _ ->. specialize (Hadv Ha). simpl in Hw. rewrite <- Hw in Hadv.
      simpl in Hadv. lia.
    + destruct (search_from p false (x :: b) a) as [[sk e0]|] eqn:S;
        [|discriminate].
      inversion H; subst. apply IH in S. destruct S as (w & Ha & Hb & Hin & _).
      exists w. simpl. rewrite <- app_assoc. simpl.
      repeat split; auto; try congruence.
Qed.

(** A search fails only if no position of the subject starts a match. *)
Lemma search_from_free_None (p : Pattern) :
  forall a b,
    search_from p false b a = None <->
    forall pre post, a = pre ++ post ->
      ends (ignorecase p) (pat p) (rev pre ++ b, post) = [].
Proof.
  induction a as [|x a IH]; intros b; simpl.
  - destruct (first_end _ _ _) as [e0|] eqn:F.
    + split; [discriminate|]. intros H. specialize (H [] [] eq_refl).
      simpl in H. rewrite H in F. discriminate.
    + apply first_end_free in F. split; [|reflexivity].
      intros _ pre post E. symmetry in E. apply app_eq_nil in E.
      destruct E; subst. exact F.
  - destruct (first_end _ _ _) as [e0|] eqn:F.
    + split; [discriminate|]. intros H. specialize (H [] (x :: a) eq_refl).
      simpl in H. rewrite H in F. discriminate.
    + apply first_end_free in F.
      destruct (search_from p false (x :: b) a) as [[sk e0]|] eqn:S.
      * split; [discriminate|]. intros H.
        assert (S' : search_from p false (x :: b) a = None).
        { apply IH. intros pre post E. specialize (H (x :: pre) post).
          simpl in H. rewrite <- app_assoc in H. simpl in H. apply H.
          now rewrite E. }
        congruence.
      * split; [|reflexivity]. intros _ pre post E.
        destruct pre as [|y pre]; simpl in E.
        -- subst post. exact F.
        -- injection E as <- Ha. simpl. rewrite <- app_assoc. simpl.
           apply (proj1 (IH (x :: b)) S). exact Ha.
Qed.

(** [p.search(s)] is true exactly when the pattern matches somewhere. *)
Lemma search_true_iff (p : Pattern) (s : pystr) :
  search p s = true <->
  exists pre post e,
    s = pre ++ post /\ In e (ends (ignorecase p) (pat p) (rev pre, post)).
Proof.
  unfold search.
  destruct (search_from p false [] s) as [[sk e]|] eqn:S.
  - split; [intros _|reflexivity].
    apply search_from_Some in S. destruct S as (w & Ha & Hb & Hin & _).
    exists sk, (w ++ snd e), e. rewrite app_nil_r in Hin. auto.
  - split; [discriminate|]. intros (pre & post & e & Hs & Hin).
    pose proof (proj1 (search_from_free_None p s []) S pre post Hs) as E.
    rewrite app_nil_r in E. rewrite E in Hin. contradiction.
Qed.

(** *** The loops of [split] and [sub] *)

Lemma first_end_at_end b es : first_end true (b, []) es = None.
Proof.
  destruct (first_end true (b, []) es) as [e|] eqn:F; [|reflexivity].
  apply first_end_Some in F. destruct F as [_ F]. specialize (F eq_refl).
  simpl in F. lia.
Qed.

(** Each turn of a loop leaves fewer turns to do. *)
Lemma search_from_turns (p : Pattern) a adv b skipped e :
  search_from p adv b a = Some (skipped, e) ->
  turns (is_empty_match a skipped e) (snd e) < turns adv a.
Proof.
  intros H. apply search_from_Some in H.
  destruct H as (w & Ha & _ & _ & Hadv).
  unfold turns, is_empty_match.
  assert (L : length a = length skipped + length w + length (snd e)).
  { rewrite Ha, !length_app. lia. }
  destruct (Nat.eqb_spec (length (snd e)) (length a - length skipped)) as [E|E].
  - assert (w = []) by (destruct w; [reflexivity|simpl in L; lia]). subst w.
    destruct adv; [|lia].
    destruct skipped as [|x sk]; [now destruct (Hadv eq_refl eq_refl)|].
    simpl in L. lia.
  - assert (length w <> 0) by lia. destruct adv; lia.
Qed.

(** Enough fuel gives the result: beyond [turns] the fuel of [split_loop]
    is never used. *)
Lemma split_loop_fuel (p : Pattern) :
  forall f1 f2 adv b a,
    turns adv a <= f1 -> turns adv a <= f2 ->
    split_loop f1 p adv b a = split_loop f2 p adv b a.
Proof.
  assert (Z0 : forall adv b a f, turns adv a <= 0 ->
                 split_loop f p adv b a = [a]).
  { intros adv b a f H. unfold turns in H.
    destruct adv; [|lia]. destruct a; [|simpl in H; lia].
    destruct f; [reflexivity|]. simpl. now rewrite first_end_at_end. }
  induction f1 as [|f1 IH]; intros f2 adv b a H1 H2.
  - now rewrite (Z0 adv b a f2 H1).
  - destruct f2 as [|f2]; [now rewrite (Z0 adv b a (S f1) H2)|].
    simpl. destruct (search_from p adv b a) as [[sk e]|] eqn:S; [|reflexivity].
    apply search_from_turns in S. f_equal. apply IH; lia.
Qed.

Lemma sub_loop_fuel (p : Pattern) (repl : pystr) :
  forall f1 f2 adv b a,
    turns adv a <= f1 -> turns adv a <= f2 ->
    sub_loop f1 p repl adv b a = sub_loop f2 p repl adv b a.
Proof.
  assert (Z0 : forall adv b a f, turns adv a <= 0 ->
                 sub_loop f p repl adv b a = a).
  { intros adv b a f H. unfold turns in H.
    destruct adv; [|lia]. destruct a; [|simpl in H; lia].
    destruct f; [reflexivity|]. simpl. now rewrite first_end_at_end. }
  induction f1 as [|f1 IH]; intros f2 adv b a H1 H2.
  - now rewrite (Z0 adv b a f2 H1).
  - destruct f2 as [|f2]; [now rewrite (Z0 adv b a (S f1) H2)|].
    simpl. destruct (search_from p adv b a) as [[sk e]|] eqn:S; [|reflexivity].
    apply search_from_turns in S. do 2 f_equal. apply IH; lia.
Qed.

Section Separators.

(** Characters at which the pattern always finds a match that advances
    are never skipped by a search, so they never end up between two
    separators. *)
Variable P : char -> Prop.
Variable p : Pattern.
Hypothesis matches_at_P :
  forall adv b x a, P x ->
    first_end adv (b, x :: a) (ends (ignorecase p) (pat p) (b, x :: a))
    <> None.

Lemma search_from_skipped :
  forall a adv b,
    match search_from p adv b a with
    | Some (skipped, _) => Forall (fun c => ~ P c) skipped
    | None => Forall (fun c => ~ P c) a
    end.
Proof.
  induction a as [|x a IH]; intros adv b; simpl.
  - destruct (first_end _ _ _); constructor.
  - destruct (first_end _ _ _) as [e|] eqn:F; [constructor|].
    assert (Hx : ~ P x).
    { intros Hx. exact (matches_at_P adv b x a Hx F). }
    specialize (IH false (x :: b)).
    destruct (search_from p false (x :: b) a) as [[sk e]|];
      constructor; assumption.
Qed.

Lemma split_loop_pieces :
  forall f adv b a,
    turns adv a <= f ->
    Forall (Forall (fun c => ~ P c)) (split_loop f p adv b a).
Proof.
  induction f as [|f IH]; intros adv b a H.
  - unfold turns in H. destruct a; [|simpl in H; lia].
    simpl. repeat constructor.
  - simpl. pose proof (search_from_skipped a adv b) as Hs.
    destruct (search_from p adv b a) as [[sk e]|] eqn:S.
    + constructor; [assumption|]. apply IH.
      apply search_from_turns in S. lia.
    + repeat constructor. assumption.
Qed.

End Separators.

End ReFacts.

(** ** The helpers *)

Lemma lstrip_incl (s : pystr) (c : char) : In c (lstrip s) -> In c s.
Proof.
  induction s as [|x s IH]; simpl; [auto|].
  destruct (Unicode.is_space x); auto.
Qed.

Lemma strip_incl (s : pystr) (c : char) : In c (strip s) -> In c s.
Proof.
  unfold strip, rstrip. intros H.
  apply in_rev, lstrip_incl, in_rev in H. now apply lstrip_incl.
Qed.

(** A newline always starts a separator. *)
Lemma sent_split_at_newline adv b x a :
  x = NL ->
  first_end adv (b, x :: a)
    (ends (ignorecase _SENT_SPLIT) (pat _SENT_SPLIT) (b, x :: a)) <> None.
Proof.
  intros -> F.
  assert (Hin : In (NL :: b, a)
                  (ends (ignorecase _SENT_SPLIT) (pat _SENT_SPLIT)
                     (b, NL :: a))).
  { simpl pat. simpl ignorecase. cbn [ends]. apply in_app_iff. right.
    unfold plus. cbn [ends fst snd]. apply ReFacts.repeat_one_In.
    exists [NL]. repeat split; auto. discriminate. }
  destruct (ReFacts.first_end_None _ _ _ _ F Hin) as [_ L]. simpl in L. lia.
Qed.

(** No sentence contains a newline. *)
Lemma sentences_no_newline (text : option pystr) (s : pystr) :
  In s (_split_sentences text) -> ~ In NL s.
Proof.
  unfold _split_sentences.
  destruct (negb (truthy (_normalize text))); [contradiction|].
  intros H Hnl. apply in_map_iff in H. destruct H as (part & <- & H).
  apply filter_In in H. destruct H as [H _]. apply strip_incl in Hnl.
  pose proof (ReFacts.split_loop_pieces (fun c => c = NL) _SENT_SPLIT
                sent_split_at_newline (turns false (_normalize text)) false []
                (_normalize text) (Nat.le_refl _)) as HF.
  rewrite Forall_forall in HF. specialize (HF part H).
  rewrite Forall_forall in HF. exact (HF NL Hnl eq_refl).
Qed.

(** ** The scanner *)

Lemma In_enumerate_from {A : Type} (l : list A) :
  forall k i x,
    In (i, x) (enumerate_from k l) <-> k <= i /\ nth_error l (i - k) = Some x.
Proof.
  induction l as [|y l IH]; intros k i x; simpl.
  - split; [contradiction|]. intros [_ H]. destruct (i - k); discriminate.
  - rewrite IH. split.
    + intros [H|[H1 H2]].
      * inversion H; subst. rewrite Nat.sub_diag. auto.
      * split; [lia|]. replace (i - k) with (S (i - S k)) by lia. exact H2.
    + intros [H1 H2]. destruct (Nat.eq_dec i k) as [->|Hne].
      * rewrite Nat.sub_diag in H2. simpl in H2. left. congruence.
      * right. split; [lia|].
        replace (i - k) with (S (i - S k)) in H2 by lia. exact H2.
Qed.

Lemma length_enumerate_from {A : Type} (l : list A) :
  forall k, length (enumerate_from k l) = length l.
Proof.
  induction l; intros k; simpl; auto.
Qed.

(** What a rule appends for a sentence, when it appends anything. *)
Lemma In_rule_hits h i sent has_third_party rule :
  In h (rule_hits i sent has_third_party rule) ->
  h = mkRuleHit (fst (fst rule)) (snd rule) (firstn 400 sent) i /\
  Category_eqb (fst (fst rule)) no_3rd && has_third_party = false /\
  search (snd (fst rule)) sent = true.
Proof.
  destruct rule as [[c rx] rid]. unfold rule_hits. simpl.
  destruct (Category_eqb c no_3rd && has_third_party); [contradiction|].
  destruct (search rx sent); [|contradiction].
  intros [H|[]]. auto.
Qed.

Lemma length_rule_hits i sent has_third_party rule :
  length (rule_hits i sent has_third_party rule) <= 1.
Proof.
  destruct rule as [[c rx] rid]. unfold rule_hits.
  destruct (Category_eqb c no_3rd && has_third_party); [simpl; lia|].
  destruct (search rx sent); simpl; lia.
Qed.

(** The hits of a scan are the hits of its sentences. *)
Lemma In_hits text company h :
  In h (hits (scan text company)) <->
  exists i sent,
    nth_error (_split_sentences text) i = Some sent /\
    In h (sentence_hits (i, sent)).
Proof.
  unfold scan. simpl. unfold enumerate. rewrite in_flat_map. split.
  - intros ([i sent] & H1 & H2). apply In_enumerate_from in H1.
    rewrite Nat.sub_0_r in H1. exists i, sent. tauto.
  - intros (i & sent & H1 & H2). exists (i, sent). split; [|exact H2].
    apply In_enumerate_from. rewrite Nat.sub_0_r. split; [lia|exact H1].
Qed.

(** A hit records the index of its sentence, the start of its text, and
    a rule of the table that matches it. *)
Lemma In_sentence_hits h i sent :
  In h (sentence_hits (i, sent)) <->
  exists rule,
    In rule _RULES /\
    In h (rule_hits i sent (search (compile THIRD_PARTY_STD true) sent) rule).
Proof.
  unfold sentence_hits. apply in_flat_map.
Qed.

Lemma hit_fields txt company h :
  In h (hits (scan txt company)) ->
  exists sent rule,
    nth_error (_split_sentences txt) (sent_idx h) = Some sent /\
    In rule _RULES /\
    cat h = fst (fst rule) /\ rule_id h = snd rule /\
    text h = firstn 400 sent /\
    Category_eqb (cat h) no_3rd
      && search (compile THIRD_PARTY_STD true) sent = false /\
    search (snd (fst rule)) sent = true.
Proof.
  intros H. apply In_hits in H. destruct H as (i & sent & Hn & H).
  apply In_sentence_hits in H. destruct H as (rule & Hr & H).
  apply In_rule_hits in H. destruct H as (-> & Hw & Hs).
  exists sent, rule. simpl. auto 10.
Qed.

(** *** The order of the hits *)

Lemma StronglySorted_app {A : Type} (R : A -> A -> Prop) (l1 l2 : list A) :
  StronglySorted R l1 -> StronglySorted R l2 ->
  (forall x y, In x l1 -> In y l2 -> R x y) ->
  StronglySorted R (l1 ++ l2).
Proof.
  induction 1 as [|x l1 H1 IH F]; intros H2 HR; simpl; [assumption|].
  constructor.
  - apply IH; [assumption|]. intros; apply HR; simpl; auto.
  - apply Forall_app. split; [assumption|].
    apply Forall_forall. intros y Hy. apply HR; simpl; auto.
Qed.

Lemma StronglySorted_flat_map {A B : Type} (Q : A -> A -> Prop)
    (R : B -> B -> Prop) (f : A -> list B) (l : list A) :
  StronglySorted Q l ->
  (forall a, In a l -> StronglySorted R (f a)) ->
  (forall a a' x y, Q a a' -> In x (f a) -> In y (f a') -> R x y) ->
  StronglySorted R (flat_map f l).
Proof.
  induction 1 as [|a l H IH F]; intros Hf HR; simpl; [constructor|].
  apply StronglySorted_app.
  - apply Hf. simpl; auto.
  - apply IH; [|assumption]. intros; apply Hf; simpl; auto.
  - intros x y Hx Hy. apply in_flat_map in Hy. destruct Hy as (a' & Ha' & Hy).
    rewrite Forall_forall in F. exact (HR a a' x y (F a' Ha') Hx Hy).
Qed.

Lemma enumerate_from_sorted {A : Type} (l : list A) :
  forall k,
    StronglySorted (fun a a' : nat * A => fst a < fst a') (enumerate_from k l).
Proof.
  induction l as [|x l IH]; intros k; simpl; constructor; [apply IH|].
  apply Forall_forall. intros [j y] H. apply In_enumerate_from in H.
  simpl. lia.
Qed.

Lemma rules_sorted :
  StronglySorted
    (fun r r' : Category * Pattern * Z =>
       rule_position (snd r) < rule_position (snd r')) _RULES.
Proof.
  unfold _RULES.
  repeat (constructor; [|repeat constructor; vm_compute; lia]).
  constructor.
Qed.

Lemma length_one_sorted {A : Type} (R : A -> A -> Prop) (l : list A) :
  length l <= 1 -> StronglySorted R l.
Proof.
  destruct l as [|x [|y l]]; simpl; intros H;
    [constructor | repeat constructor | lia].
Qed.

Lemma sentence_hits_sorted i sent :
  StronglySorted hit_before (sentence_hits (i, sent)).
Proof.
  unfold sentence_hits.
  apply StronglySorted_flat_map
    with (Q := fun r r' : Category * Pattern * Z =>
                 rule_position (snd r) < rule_position (snd r')).
  - exact rules_sorted.
  - intros rule _. apply length_one_sorted, length_rule_hits.
  - intros r r' x y Hq Hx Hy.
    apply In_rule_hits in Hx. apply In_rule_hits in Hy.
    destruct Hx as (-> & _), Hy as (-> & _). right. simpl. auto.
Qed.

Lemma hits_sorted text company :
  StronglySorted hit_before (hits (scan text company)).
Proof.
  unfold scan. simpl. unfold enumerate.
  apply StronglySorted_flat_map
    with (Q := fun a a' : nat * list N => fst a < fst a').
  - apply enumerate_from_sorted.
  - intros [i sent] _. apply sentence_hits_sorted.
  - intros [i s] [j s'] x y Hq Hx Hy. simpl in Hq.
    apply In_sentence_hits in Hx. apply In_sentence_hits in Hy.
    destruct Hx as (r & _ & Hx), Hy as (r' & _ & Hy).
    apply In_rule_hits in Hx. apply In_rule_hits in Hy.
    destruct Hx as (-> & _), Hy as (-> & _). left. simpl. exact Hq.
Qed.

(** In a strictly sorted list, elements no two of which are in order
    are at most one. *)
Lemma sorted_filter_le_1 {A : Type} (R : A -> A -> Prop) (f : A -> bool)
    (l : list A) :
  StronglySorted R l ->
  (forall x y, f x = true -> f y = true -> ~ R x y) ->
  length (filter f l) <= 1.
Proof.
  intros HS Hf. induction HS as [|x l HS IH F]; simpl; [lia|].
  destruct (f x) eqn:Hx; [|exact IH].
  assert (E : filter f l = []).
  { destruct (filter f l) as [|y l'] eqn:E; [reflexivity|].
    assert (Hy : In y (filter f l)) by (rewrite E; simpl; auto).
    apply filter_In in Hy. destruct Hy as [Hy1 Hy2].
    rewrite Forall_forall in F. destruct (Hf x y Hx Hy2 (F y Hy1)). }
  rewrite E. simpl. lia.
Qed.

Lemma length_flat_map_le {A B : Type} (f : A -> list B) (k : nat)
    (l : list A) :
  (forall a, length (f a) <= k) -> length (flat_map f l) <= k * length l.
Proof.
  intros H. induction l as [|a l IH]; simpl; [lia|].
  rewrite length_app. specialize (H a). lia.
Qed.

(** ** What the patterns of the rules denote *)

Lemma ignorecase_eq_uncased (p c : char) :
  Unicode.is_ascii_lower (Unicode.ascii_lower p) = false ->
  (Unicode.ignorecase_eq p c = true <-> c = p).
Proof.
  intros H. unfold Unicode.ignorecase_eq. rewrite H. apply N.eqb_eq.
Qed.

Lemma lang_lit_ci :
  forall s w, lang true (lit s) w <-> same_text s w.
Proof.
  unfold same_text. induction s as [|c s IH]; intros w; simpl.
  - split; [intros ->; constructor|intros H; now inversion H].
  - split.
    + intros (w1 & w2 & -> & (x & -> & Hx) & H2). simpl.
      constructor; [exact Hx|now apply IH].
    + intros H. inversion H as [|c' y s' w' Hy Hw]; subst.
      exists [y], w'. repeat split; eauto. now apply IH.
Qed.

Lemma lang_Str s w : lang true (Str s) w <-> same_text (str s) w.
Proof.
  apply lang_lit_ci.
Qed.

Lemma lang_star_Space ic ws :
  lang ic (star Space) ws <-> spaces ws.
Proof.
  unfold star, spaces. simpl. split; [tauto|].
  intros H. repeat split; [exact H|lia|discriminate].
Qed.

(** [a\s*b] *)
Lemma lang_spaced a r w :
  lang true (Seq (Str a) (Seq (star Space) r)) w <->
  exists w1 ws w2,
    w = w1 ++ ws ++ w2 /\ same_text (str a) w1 /\ spaces ws /\
    lang true r w2.
Proof.
  cbn [lang]. split.
  - intros (w1 & w' & -> & H1 & ws & w2 & -> & Hs & H2).
    exists w1, ws, w2. rewrite lang_Str in H1. rewrite lang_star_Space in Hs.
    auto.
  - intros (w1 & ws & w2 & -> & H1 & Hs & H2).
    exists w1, (ws ++ w2). rewrite lang_Str. repeat split; [exact H1|].
    exists ws, w2. rewrite lang_star_Space. auto.
Qed.

(** *** Third-party standards *)

Lemma same_text_space_split a b w :
  same_text (a ++ [SP] ++ b) w ->
  exists w1 w2, w = w1 ++ [SP] ++ w2 /\ same_text a w1 /\ same_text b w2.
Proof.
  unfold same_text. intros H.
  apply Forall2_app_inv_l in H. destruct H as (w1 & w' & H1 & H' & ->).
  apply Forall2_app_inv_l in H'. destruct H' as (ws & w2 & Hs & H2 & ->).
  inversion Hs as [|sp c l l' Hc Hnil]; subst. inversion Hnil; subst.
  apply ignorecase_eq_uncased in Hc; [|reflexivity]. subst c.
  now exists w1, w2.
Qed.

Lemma lang_standard_spaced a b w :
  same_text (str a ++ [SP] ++ str b) w ->
  lang true (Seq (Str a) (Seq (star Space) (Str b))) w.
Proof.
  intros H. apply same_text_space_split in H.
  destruct H as (w1 & w2 & -> & H1 & H2).
  apply lang_spaced. exists w1, [SP], w2. rewrite lang_Str.
  repeat split; auto.
Qed.

Lemma lang_standard marker w :
  In marker standard_markers -> same_text marker w ->
  lang true THIRD_PARTY_STD w.
Proof.
  unfold standard_markers, THIRD_PARTY_STD. cbn [In lang].
  intros [<-|[<-|[<-|[<-|[<-|[<-|[]]]]]]] H.
  - left. now apply (lang_standard_spaced "PAS" "2060").
  - right; left. now apply lang_Str.
  - right; right; left. now apply (lang_standard_spaced "Gold" "Standard").
  - right; right; right; left. now apply lang_Str.
  - right; right; right; right; left.
    now apply (lang_standard_spaced "ISAE" "3000").
  - right; right; right; right; right. now apply lang_Str.
Qed.

(** A plain pattern is found wherever a word it denotes occurs. *)
Lemma search_plain_iff (r : re) (ic : bool) (s : pystr) :
  plain r = true ->
  (search (compile r ic) s = true <-> occurs (lang ic r) s).
Proof.
  intros Hp. rewrite ReFacts.search_true_iff. simpl. split.
  - intros (pre & post & e & Hs & Hin).
    apply (ReFacts.ends_plain ic r Hp) in Hin.
    destruct Hin as (w & Ha & _ & L). exists pre, w, (snd e).
    split; [congruence|exact L].
  - intros (pre & w & post & Hs & L).
    exists pre, (w ++ post), (rev w ++ rev pre, post). split; [exact Hs|].
    apply (ReFacts.ends_plain ic r Hp). exists w. auto.
Qed.

Lemma mentions_standard_found (sent : pystr) :
  mentions_standard sent -> search (compile THIRD_PARTY_STD true) sent = true.
Proof.
  intros (marker & Hm & pre & w & post & Hs & Hw).
  apply search_plain_iff; [reflexivity|].
  exists pre, w, post. split; [exact Hs|].
  exact (lang_standard marker w Hm Hw).
Qed.

(** *** Targets without a year or a baseline *)

Lemma lang_TARGET_WORDS w :
  lang true TARGET_WORDS w <-> is_target_word w.
Proof.
  unfold TARGET_WORDS, is_target_word. cbn [lang].
  rewrite !lang_Str. reflexivity.
Qed.

Lemma same_text_uncased (p w : pystr) :
  Forall (fun c => Unicode.is_ascii_lower (Unicode.ascii_lower c) = false) p ->
  same_text p w -> w = p.
Proof.
  intros Hp H. induction H as [|x y p w Hxy H IH]; [reflexivity|].
  inversion Hp; subst. apply ignorecase_eq_uncased in Hxy; [|assumption].
  f_equal; auto.
Qed.

Lemma same_text_refl_uncased (p : pystr) :
  Forall (fun c => Unicode.is_ascii_lower (Unicode.ascii_lower c) = false) p ->
  same_text p p.
Proof.
  induction 1; constructor; [|assumption].
  now apply ignorecase_eq_uncased.
Qed.

Lemma lang_year w :
  lang true (Seq (Str "20") (Rep Digit 2 (Some 2) true)) w <->
  year_like w.
Proof.
  assert (U : Forall (fun c => Unicode.is_ascii_lower (Unicode.ascii_lower c)
                               = false) (str "20"))
    by (repeat constructor).
  cbn [lang]. split.
  - intros (w1 & w2 & -> & H1 & Hall & Hlo & Hhi).
    apply lang_Str, (same_text_uncased _ _ U) in H1. subst w1.
    specialize (Hhi 2 eq_refl).
    destruct w2 as [|d1 [|d2 [|d3 w2]]]; simpl in Hlo, Hhi; try lia.
    simpl in Hall. rewrite andb_true_r in Hall.
    apply andb_true_iff in Hall. exists d1, d2. tauto.
  - intros (d1 & d2 & -> & D1 & D2). exists (str "20"), [d1; d2].
    rewrite lang_Str. repeat split.
    + now apply same_text_refl_uncased.
    + simpl. now rewrite D1, D2.
    + simpl. lia.
    + intros h [= <-]. simpl. lia.
Qed.

Lemma lang_two_words a b w :
  lang true (Seq (Str a) (Seq (star Space) (Str b))) w <->
  two_words a b w.
Proof.
  rewrite lang_spaced. unfold two_words. split.
  - intros (w1 & ws & w2 & ? & ? & ? & H). apply lang_Str in H.
    exists w1, ws, w2. auto.
  - intros (w1 & ws & w2 & ? & ? & ? & H). apply lang_Str in H.
    exists w1, ws, w2. auto.
Qed.

Lemma lang_from_year w :
  lang true
    (Seq (Str "from")
       (Seq (star Space) (Seq (Str "20") (Rep Digit 2 (Some 2) true)))) w <->
  exists w1 ws y,
    w = w1 ++ ws ++ y /\ same_text (str "from") w1 /\ spaces ws /\
    year_like y.
Proof.
  rewrite lang_spaced. split.
  - intros (w1 & ws & w2 & ? & ? & ? & H). apply lang_year in H.
    exists w1, ws, w2. auto.
  - intros (w1 & ws & w2 & ? & ? & ? & H). apply lang_year in H.
    exists w1, ws, w2. auto.
Qed.

Lemma lang_YEAR_OR_BASELINE w :
  lang true YEAR_OR_BASELINE w <->
  year_like w \/ baseline_reference w \/ reference_year_phrase w.
Proof.
  unfold YEAR_OR_BASELINE, baseline_reference, reference_year_phrase.
  change (lang true (Group ?r) w) with (lang true r w).
  repeat match goal with
  | |- context [lang true (Alt ?r1 ?r2) w] =>
      change (lang true (Alt r1 r2) w)
        with (lang true r1 w \/ lang true r2 w)
  end.
  rewrite lang_year, lang_Str, !lang_two_words, lang_from_year. tauto.
Qed.

Lemma mitigated_iff (rest : pystr) :
  occurs (lang true YEAR_OR_BASELINE) rest <-> mitigated rest.
Proof.
  unfold mitigated, occurs. split.
  - intros (pre & w & post & Hs & L). apply lang_YEAR_OR_BASELINE in L.
    destruct L as [L|[L|L]]; [left|right; left|right; right];
      exists pre, w, post; auto.
  - intros [H|[H|H]]; destruct H as (pre & w & post & Hs & L);
      exists pre, w, post; (split; [exact Hs|]);
      apply lang_YEAR_OR_BASELINE; tauto.
Qed.

Lemma ends_Seq ic r1 r2 c e :
  In e (ends ic (Seq r1 r2) c) <->
  exists c1, In c1 (ends ic r1 c) /\ In e (ends ic r2 c1).
Proof.
  apply in_flat_map.
Qed.

Lemma ends_NegAhead ic r c e :
  In e (ends ic (NegAhead r) c) <-> ends ic r c = [] /\ e = c.
Proof.
  cbn [ends]. destruct (ends ic r c); simpl; split.
  - intros [H|[]]. auto.
  - intros [_ H]. auto.
  - contradiction.
  - intros [H _]. discriminate.
Qed.

(** In a text without newlines, the lookahead [(?!.*r)] holds where [r]
    occurs nowhere in what follows. *)
Lemma lookahead_fails_iff ic r b a :
  plain r = true -> ~ In NL a ->
  (ends ic (Seq dotstar r) (b, a) = [] <-> ~ occurs (lang ic r) a).
Proof.
  intros Hp Hnl.
  assert (Hp' : plain (Seq dotstar r) = true) by exact Hp.
  split.
  - intros H (pre & w & post & Hs & L).
    assert (Hin : In (rev (pre ++ w) ++ b, post)
                    (ends ic (Seq dotstar r) (b, a))).
    { apply (ReFacts.ends_plain ic _ Hp'). exists (pre ++ w). simpl.
      rewrite <- app_assoc. repeat split; [exact Hs|].
      exists pre, w. repeat split; auto; try lia; try discriminate.
      apply forallb_forall. intros x Hx. simpl.
      apply negb_true_iff, N.eqb_neq. intros ->. apply Hnl.
      rewrite Hs. apply in_or_app. now left. }
    rewrite H in Hin. contradiction.
  - intros H. destruct (ends ic (Seq dotstar r) (b, a)) as [|e l] eqn:E;
      [reflexivity|].
    assert (Hin : In e (ends ic (Seq dotstar r) (b, a)))
      by (rewrite E; now left).
    apply (ReFacts.ends_plain ic _ Hp') in Hin.
    destruct Hin as (w & Ha & _ & u & q & -> & _ & L).
    destruct H. exists u, q, (snd e). rewrite <- app_assoc in Ha. auto.
Qed.

(** The pattern of rule 102 is found in a sentence exactly when the
    sentence has a target word with nothing after it to back it. *)
Lemma lack_metrics_found (sent : pystr) :
  ~ In NL sent ->
  (search (compile (Seq TARGET_WORDS
                      (NegAhead (Seq dotstar YEAR_OR_BASELINE))) true) sent
   = true <-> lacks_metrics sent).
Proof.
  intros Hnl. rewrite ReFacts.search_true_iff. cbn [pat ignorecase]. split.
  - intros (pre & post & e & Hs & Hin).
    apply ends_Seq in Hin. destruct Hin as ([b1 a1] & H1 & H2).
    apply ends_NegAhead in H2. destruct H2 as [H2 ->].
    apply (ReFacts.ends_plain true TARGET_WORDS eq_refl) in H1.
    destruct H1 as (w & Ha & _ & L). simpl in Ha.
    apply lookahead_fails_iff in H2; [|reflexivity|].
    + exists pre, w, a1. split; [congruence|].
      split; [now apply lang_TARGET_WORDS|].
      intros M. apply H2. now apply mitigated_iff.
    + intros Hx. apply Hnl. rewrite Hs, Ha.
      apply in_or_app. right. apply in_or_app. now right.
  - intros (pre & w & rest & Hs & Hw & Hm).
    exists pre, (w ++ rest), (rev w ++ rev pre, rest). split; [exact Hs|].
    apply ends_Seq. exists (rev w ++ rev pre, rest). split.
    + apply (ReFacts.ends_plain true TARGET_WORDS eq_refl). exists w.
      simpl. repeat split. now apply lang_TARGET_WORDS.
    + apply ends_NegAhead. split; [|reflexivity].
      apply lookahead_fails_iff; [reflexivity| |].
      * intros Hx. apply Hnl. rewrite Hs.
        apply in_or_app. right. apply in_or_app. now right.
      * intros M. apply Hm. now apply mitigated_iff.
Qed.

(** * The claims *)

(** C1: a sentence that holds a marker of a recognized third-party
    standard (as its pattern finds it, or as one of PAS 2060, Verra, Gold
    Standard, ICROA, ISAE 3000 and AA1000 in any case, or as the very words
    "Gold Standard") gives no hit of category no_3rd at its index, whatever
    else it matches. *)
Theorem standard_marker_suppresses_no_3rd (txt company : option pystr)
    (i : nat) (sent : pystr) (h : RuleHit) :
  nth_error (_split_sentences txt) i = Some sent ->
  (search (compile THIRD_PARTY_STD true) sent = true \/
   mentions_standard sent \/
   (exists pre post, sent = pre ++ str "Gold Standard" ++ post)) ->
  In h (hits (scan txt company)) ->
  sent_idx h = i ->
  cat h <> no_3rd.
Proof.
  intros Hn Hstd Hin Hi.
  assert (Hs : search (compile THIRD_PARTY_STD true) sent = true).
  { destruct Hstd as [H|[H|(pre & post & H)]]; [exact H| |].
    - now apply mentions_standard_found.
    - apply mentions_standard_found. exists (str "Gold Standard").
      split; [unfold standard_markers; simpl; auto|].
      exists pre, (str "Gold Standard"), post. split; [exact H|].
      repeat constructor. }
  apply hit_fields in Hin.
  destruct Hin as (sent0 & _ & Hn0 & _ & _ & _ & _ & Hw & _).
  rewrite Hi, Hn in Hn0. injection Hn0 as <-.
  rewrite Hs, andb_true_r in Hw. intros Hc. rewrite Hc in Hw. discriminate.
Qed.

Lemma standard_marker_suppresses_no_3rd_witness :
  let sent :=
    str "Under the Gold Standard we aim to be carbon neutral through offsets."
  in
  let h := mkRuleHit vague 901 sent 0 in
  nth_error (_split_sentences (Some sent)) 0 = Some sent /\
  (exists pre post, sent = pre ++ str "Gold Standard" ++ post) /\
  In h (hits (scan (Some sent) None)) /\
  search (snd (fst (nth 5 _RULES (vague, compile Eps false, 0%Z)))) sent
    = true /\
  cat h <> no_3rd.
Proof.
  intros sent h.
  assert (Hn : nth_error (_split_sentences (Some sent)) 0 = Some sent)
    by (vm_compute; reflexivity).
  assert (Hg : exists pre post, sent = pre ++ str "Gold Standard" ++ post).
  { exists (str "Under the "),
           (str " we aim to be carbon neutral through offsets.").
    vm_compute. reflexivity. }
  assert (Hin : In h (hits (scan (Some sent) None)))
    by (vm_compute; left; reflexivity).
  split; [exact Hn|]. split; [exact Hg|]. split; [exact Hin|].
  split; [vm_compute; reflexivity|].
  exact (standard_marker_suppresses_no_3rd (Some sent) None 0 sent h Hn
           (or_intror (or_intror Hg)) Hin eq_refl).
Defined.

(** C2, as the code has it: rule 102 (category lack_metrics) gives a hit
    for a sentence exactly when "target", "goal", "objective" or
    "commitment" occurs in the sentence, in any case and inside a longer
    word as well, with nothing after it in the sentence of: "20" and two
    digits (inside a longer number as well), "baseline", "base year",
    "reference year" or "from" and such a year (the two words with any
    white space or none between them); "Our target is net zero." gives
    exactly that one hit and "Our target is net zero by 2030." gives
    none. *)
Theorem lack_metrics_fires_exactly (company : option pystr) :
  (forall txt i sent,
     nth_error (_split_sentences txt) i = Some sent ->
     ((exists h, In h (hits (scan txt company)) /\ sent_idx h = i /\
                 rule_id h = 102%Z /\ cat h = lack_metrics)
      <-> lacks_metrics sent)) /\
  hits (scan (Some (str "Our target is net zero.")) company) =
    [mkRuleHit lack_metrics 102 (str "Our target is net zero.") 0] /\
  hits (scan (Some (str "Our target is net zero by 2030.")) company) = [].
Proof.
  split; [|split; vm_compute; reflexivity].
  intros txt i sent Hn.
  assert (Hnl : ~ In NL sent).
  { apply (sentences_no_newline txt). eapply nth_error_In. exact Hn. }
  rewrite <- (lack_metrics_found sent Hnl). split.
  - intros (h & Hin & Hi & Hid & _). apply hit_fields in Hin.
    destruct Hin as (sent0 & rule & Hn0 & Hr & _ & Hrid & _ & _ & Hs).
    rewrite Hi, Hn in Hn0. injection Hn0 as <-.
    rewrite Hid in Hrid. unfold _RULES in Hr. cbn [In] in Hr.
    destruct Hr as [<-|[<-|[<-|[<-|[<-|[<-|[]]]]]]];
      cbn [fst snd] in Hrid, Hs; try discriminate Hrid.
    exact Hs.
  - intros Hs. exists (mkRuleHit lack_metrics 102 (firstn 400 sent) i).
    split; [|repeat split]. apply In_hits. exists i, sent. split; [exact Hn|].
    apply In_sentence_hits.
    exists (lack_metrics,
            compile (Seq TARGET_WORDS
                       (NegAhead (Seq dotstar YEAR_OR_BASELINE))) true,
            102%Z).
    split; [unfold _RULES; cbn [In]; right; left; reflexivity|].
    unfold rule_hits. cbn [Category_eqb andb]. rewrite Hs. now left.
Qed.

Lemma lack_metrics_fires_exactly_witness :
  let sent := str "Our goal is net zero; our target was set from 2019." in
  nth_error (_split_sentences (Some sent)) 0 = Some sent /\
  ((exists h, In h (hits (scan (Some sent) None)) /\ sent_idx h = 0 /\
              rule_id h = 102%Z /\ cat h = lack_metrics)
   <-> lacks_metrics sent).
Proof.
  intros sent.
  assert (Hn : nth_error (_split_sentences (Some sent)) 0 = Some sent)
    by (vm_compute; reflexivity).
  split; [exact Hn|].
  exact (proj1 (lack_metrics_fires_exactly None) (Some sent) 0 sent Hn).
Defined.

(** C2, as it is worded, fails on the code.  "Our target is 12000 tonnes."
    has a target word and no four-digit year after it, and rule 102 is
    silent: the pattern takes the "2000" inside "12000" for a year.  "We
    objectively assess emissions." has no target word, and rule 102 gives
    a hit: the pattern takes the "objective" inside "objectively" for
    one. *)
Lemma lack_metrics_as_worded_fails :
  let silent := str "Our target is 12000 tonnes." in
  let fires := str "We objectively assess emissions." in
  (_split_sentences (Some silent) = [silent] /\
   lacks_metrics_as_worded silent = true /\
   hits (scan (Some silent) None) = []) /\
  (_split_sentences (Some fires) = [fires] /\
   lacks_metrics_as_worded fires = false /\
   hits (scan (Some fires) None) = [mkRuleHit lack_metrics 102 fires 0]) /\
  ~ (forall txt i sent,
       nth_error (_split_sentences txt) i = Some sent ->
       ((exists h, In h (hits (scan txt None)) /\ sent_idx h = i /\
                   rule_id h = 102%Z /\ cat h = lack_metrics)
        <-> lacks_metrics_as_worded sent = true)).
Proof.
  intros silent fires.
  assert (S1 : _split_sentences (Some silent) = [silent])
    by (vm_compute; reflexivity).
  assert (W1 : lacks_metrics_as_worded silent = true)
    by (vm_compute; reflexivity).
  assert (H1 : hits (scan (Some silent) None) = [])
    by (vm_compute; reflexivity).
  split; [auto|]. split; [repeat split; vm_compute; reflexivity|].
  intros All.
  destruct (proj2 (All (Some silent) 0 silent
                     (f_equal (fun l => nth_error l 0) S1)) W1)
    as (h & Hin & _).
  rewrite H1 in Hin. exact Hin.
Qed.

(** C3: the scan of "We are carbon neutral through offsets." has exactly
    one hit, of category no_3rd, rule 302, at sentence 0; once the sentence
    ends in "verified under PAS 2060." the scan has no hit. *)
Theorem scan_offsets_scenario (company : option pystr) :
  scan (Some (str "We are carbon neutral through offsets.")) company =
    mkRuleScanResult
      [mkRuleHit no_3rd 302 (str "We are carbon neutral through offsets.") 0]
      (str "sentences=1; hits=1; whitelist_in_sent=third_party") /\
  hits (scan (Some (str
     "We are carbon neutral through offsets verified under PAS 2060."))
     company) = [].
Proof.
  split; vm_compute; reflexivity.
Qed.

(** C4: the hits of a scan are in strictly increasing order of (sentence
    index, position of the rule in the rule table), and two runs on the
    same input give the same hits and the same sequence of rule ids. *)
Theorem hits_in_sentence_then_rule_order (txt company : option pystr) :
  StronglySorted hit_before (hits (scan txt company)) /\
  (let run1 := scan txt company in
   let run2 := scan txt company in
   hits run1 = hits run2 /\
   map rule_id (hits run1) = map rule_id (hits run2)).
Proof.
  split; [apply hits_sorted|]. split; reflexivity.
Qed.

(** C5: the company argument has no effect: whatever two values it takes
    (none included), the scans of a text are equal, hits and notes alike. *)
Theorem company_has_no_effect (txt c1 c2 : option pystr) :
  scan txt c1 = scan txt c2 /\
  hits (scan txt c1) = hits (scan txt c2) /\
  notes (scan txt c1) = notes (scan txt c2).
Proof.
  repeat split.
Qed.

(** C6: [scan] returns a result on every text, missing or not: the loops
    of [split] and [sub] come to their end within the turns they are given
    (more fuel changes nothing), and the empty string and a missing text
    both give an empty list of hits. *)
Theorem scan_total_and_empty_on_no_text (company : option pystr) :
  (forall txt, exists hs ns, scan txt company = mkRuleScanResult hs ns) /\
  (forall p s f, turns false s <= f ->
     split_loop f p false [] s = Re.split p s) /\
  (forall p repl s f, turns false s <= f ->
     sub_loop f p repl false [] s = Re.sub p repl s) /\
  hits (scan None company) = [] /\
  hits (scan (Some []) company) = [].
Proof.
  split; [|split; [|split; [|split; reflexivity]]].
  - intros txt. destruct (scan txt company) as [hs ns]. now exists hs, ns.
  - intros p s f H. apply ReFacts.split_loop_fuel; [exact H|apply Nat.le_refl].
  - intros p repl s f H.
    apply ReFacts.sub_loop_fuel; [exact H|apply Nat.le_refl].
Qed.

(** C7: the text of a hit is its sentence cut to at most 400 characters:
    it is no longer than 400 and it is the first min(400, length)
    characters of the sentence at the hit's index. *)
Theorem hit_text_is_truncated_sentence (txt company : option pystr)
    (h : RuleHit) :
  In h (hits (scan txt company)) ->
  length (text h) <= 400 /\
  exists sent,
    nth_error (_split_sentences txt) (sent_idx h) = Some sent /\
    text h = firstn (Nat.min 400 (length sent)) sent.
Proof.
  intros H. apply hit_fields in H.
  destruct H as (sent & rule & Hn & _ & _ & _ & Ht & _).
  split.
  - rewrite Ht, length_firstn. lia.
  - exists sent. split; [exact Hn|]. rewrite Ht.
    destruct (Nat.le_ge_cases 400 (length sent)) as [L|L].
    + now rewrite Nat.min_l.
    + rewrite Nat.min_r by assumption.
      now rewrite firstn_all, firstn_all2.
Qed.

Lemma hit_text_is_truncated_sentence_witness :
  let sent := str "We aim to " ++ repeat 122%N 500 ++ str "." in
  let h := mkRuleHit vague 901 (str "We aim to " ++ repeat 122%N 390) 0 in
  In h (hits (scan (Some sent) None)) /\
  (length (text h) <= 400 /\
   exists sent0,
     nth_error (_split_sentences (Some sent)) (sent_idx h) = Some sent0 /\
     text h = firstn (Nat.min 400 (length sent0)) sent0).
Proof.
  intros sent h.
  assert (Hin : In h (hits (scan (Some sent) None)))
    by (vm_compute; left; reflexivity).
  split; [exact Hin|].
  exact (hit_text_is_truncated_sentence (Some sent) None h Hin).
Defined.

(** C8: the sentence index of a hit is a valid zero-based index into the
    sentences of the text. *)
Theorem sent_idx_is_valid (txt company : option pystr) (h : RuleHit) :
  In h (hits (scan txt company)) ->
  0 <= sent_idx h < length (_split_sentences txt).
Proof.
  intros H. apply hit_fields in H. destruct H as (sent & _ & Hn & _).
  split; [lia|]. apply nth_error_Some. congruence.
Qed.

Lemma sent_idx_is_valid_witness :
  let txt := Some (str "We report. We aim to reduce emissions.") in
  let h := mkRuleHit vague 901 (str "We aim to reduce emissions.") 1 in
  In h (hits (scan txt None)) /\
  0 <= sent_idx h < length (_split_sentences txt).
Proof.
  split.
  - vm_compute. left. reflexivity.
  - apply (sent_idx_is_valid
             (Some (str "We report. We aim to reduce emissions.")) None).
    vm_compute. left. reflexivity.
Defined.

(** C9: whatever the text, [score] returns the same all-zero result: a
    breakdown with one entry of value 0.0 for each of the five categories,
    under the names the code gives them, a radar that is 0 for each of the
    five categories, overall 0.0 (also as overall_greenwashing_score), and
    the engine field "legacy-stub". *)
Theorem score_always_zero (text : pystr) :
  score text = score [] /\
  exists breakdown radar,
    score text =
      PDict [ ("radar", PDict radar); ("overall", PFloat 0%float);
              ("overall_greenwashing_score", PDict [("score", PFloat 0%float)]);
              ("breakdown", PList breakdown);
              ("engine", PStr "legacy-stub") ]%string /\
    breakdown =
      [ PDict [("type", PStr "Vague or unsubstantiated claims");
               ("value", PFloat 0%float)];
        PDict [("type", PStr "Lack of specific metrics or targets");
               ("value", PFloat 0%float)];
        PDict [("type", PStr "Misleading terminology");
               ("value", PFloat 0%float)];
        PDict [("type", PStr "Cherry-picked data");
               ("value", PFloat 0%float)];
        PDict [("type", PStr "Absence of third-party verification");
               ("value", PFloat 0%float)] ]%string /\
    length breakdown = 5 /\
    (forall entry, In entry breakdown ->
       exists name, entry = PDict [("type", PStr name);
                                   ("value", PFloat 0%float)]%string) /\
    radar = [ ("vague", PInt 0); ("lack_metrics", PInt 0);
              ("misleading", PInt 0); ("cherry", PInt 0);
              ("no_3rd", PInt 0) ]%string.
Proof.
  split; [reflexivity|].
  unfold score. eexists. eexists.
  split; [reflexivity|]. split; [reflexivity|]. split; [reflexivity|].
  split; [|reflexivity].
  intros entry H. simpl in H.
  repeat (destruct H as [H|H]; [subst entry; eexists; reflexivity|]).
  contradiction.
Qed.

(** C10: a rule contributes at most one hit per sentence, also when the
    sentence holds its trigger several times, so a scan has at most six
    hits per sentence. *)
Theorem at_most_one_hit_per_rule_and_sentence (txt company : option pystr) :
  (forall i rid,
     length (filter (fun h => (sent_idx h =? i) && (rule_id h =? rid)%Z)
               (hits (scan txt company))) <= 1) /\
  length (hits (scan txt company)) <= 6 * length (_split_sentences txt) /\
  hits (scan (Some (str "We aim, strive and aim to keep our pledge."))
          company) =
    [mkRuleHit vague 901 (str "We aim, strive and aim to keep our pledge.") 0].
Proof.
  split; [|split].
  - intros i rid. apply sorted_filter_le_1 with (R := hit_before).
    + apply hits_sorted.
    + intros x y Hx Hy [L|[_ L]];
        apply andb_true_iff in Hx; apply andb_true_iff in Hy;
        destruct Hx as [Hx1 Hx2], Hy as [Hy1 Hy2];
        apply Nat.eqb_eq in Hx1, Hy1; apply Z.eqb_eq in Hx2, Hy2.
      * lia.
      * rewrite Hx2, Hy2 in L. lia.
  - unfold scan, enumerate. cbn [hits].
    rewrite <- (length_enumerate_from (_split_sentences txt) 0).
    apply length_flat_map_le. intros [i sent]. unfold sentence_hits.
    change 6 with (1 * length _RULES).
    apply length_flat_map_le. intros rule. apply length_rule_hits.
  - vm_compute. reflexivity.
Qed.

(** * Further properties *)

(** ** Normalization *)

Lemma take_drop_run test (a : pystr) : take_run test a ++ drop_run test a = a.
Proof.
  induction a as [|x a IH]; simpl; [reflexivity|].
  destruct (test x); simpl; [now rewrite IH|reflexivity].
Qed.

Lemma drop_run_head test (a : pystr) x r :
  drop_run test a = x :: r -> test x = false.
Proof.
  induction a as [|y a IH]; simpl; [discriminate|].
  destruct (test y) eqn:E; [exact IH|]. intros [= <- _]. exact E.
Qed.

(** A greedy repeat stops first after the longest run. *)
Lemma repeat_one_greedy_first test :
  forall (a : pystr) lo b,
    lo <= length (take_run test a) ->
    exists tl,
      repeat_one test true lo None b a
      = (rev (take_run test a) ++ b, drop_run test a) :: tl.
Proof.
  induction a as [|x a IH]; intros lo b H; rewrite ReFacts.repeat_one_eq.
  - simpl in *. assert (lo = 0) by lia. subst. now exists [].
  - simpl take_run in *. simpl drop_run. destruct (test x) eqn:E.
    + cbn [andb can_take option_map]. simpl in H.
      destruct (IH (pred lo) (x :: b)) as (tl & ->); [lia|].
      eexists. simpl. rewrite <- app_assoc. reflexivity.
    + simpl in H. assert (lo = 0) by lia. subst. now exists [].
Qed.

Lemma repeat_one_plus_none test g hi b (a : pystr) :
  take_run test a = [] -> repeat_one test g 1 hi b a = [].
Proof.
  intros H. rewrite ReFacts.repeat_one_eq.
  destruct a as [|x a]; simpl in *; [now destruct g|].
  destruct (test x); [discriminate|]. now destruct g.
Qed.

Lemma length_take_drop_run test (a : pystr) :
  length (take_run test a) + length (drop_run test a) = length a.
Proof.
  rewrite <- length_app. now rewrite take_drop_run.
Qed.

(** The first match of [c+] at a position. *)
Lemma first_end_plus test adv b (a : pystr) :
  first_end adv (b, a) (repeat_one test true 1 None b a) =
  match take_run test a with
  | [] => None
  | _ :: _ => Some (rev (take_run test a) ++ b, drop_run test a)
  end.
Proof.
  destruct (take_run test a) as [|x r] eqn:E.
  - now rewrite repeat_one_plus_none.
  - destruct (repeat_one_greedy_first test a 1 b) as (tl & ->);
      [rewrite E; simpl; lia|].
    rewrite E. unfold first_end. simpl.
    pose proof (length_take_drop_run test a) as L. rewrite E in L.
    simpl in L.
    assert (T : (length (drop_run test a) <? length a) = true)
      by (apply Nat.ltb_lt; lia).
    rewrite T, orb_true_r. reflexivity.
Qed.

Lemma search_from_blanks_cons adv b x (a : pystr) :
  search_from blanks adv b (x :: a) =
  if is_blank x
  then Some ([], (rev (take_run is_blank (x :: a)) ++ b,
                  drop_run is_blank (x :: a)))
  else match search_from blanks false (x :: b) a with
       | Some (skipped, e) => Some (x :: skipped, e)
       | None => None
       end.
Proof.
  cbn [search_from].
  change (ends (ignorecase blanks) (pat blanks) (b, x :: a))
    with (repeat_one is_blank true 1 None b (x :: a)).
  rewrite first_end_plus. cbn [take_run].
  destruct (is_blank x); reflexivity.
Qed.

Lemma search_from_blanks :
  forall (a : pystr) adv b,
    search_from blanks adv b a =
    match drop_run (fun c => negb (is_blank c)) a with
    | [] => None
    | r =>
        Some (take_run (fun c => negb (is_blank c)) a,
              (rev (take_run is_blank r)
               ++ rev (take_run (fun c => negb (is_blank c)) a) ++ b,
               drop_run is_blank r))
    end.
Proof.
  induction a as [|x a IH]; intros adv b; [reflexivity|].
  rewrite search_from_blanks_cons. cbn [take_run drop_run].
  destruct (is_blank x) eqn:E; cbn [negb].
  - cbn [take_run drop_run]. rewrite E. reflexivity.
  - rewrite IH.
    destruct (drop_run (fun c => negb (is_blank c)) a) as [|y r];
      [reflexivity|].
    simpl. now rewrite <- !app_assoc.
Qed.

Lemma is_blank_iff c : is_blank c = true <-> c = SP \/ c = TAB.
Proof.
  unfold is_blank. simpl. rewrite orb_false_r, orb_true_iff, !N.eqb_eq.
  reflexivity.
Qed.

Lemma is_blank_space c : is_blank c = true -> Unicode.is_space c = true.
Proof.
  intros H. apply is_blank_iff in H. destruct H as [->| ->]; reflexivity.
Qed.

Lemma collapse_cons x (a : pystr) :
  collapse (x :: a) =
  if is_blank x
  then match a with
       | y :: _ => if is_blank y then collapse a else SP :: collapse a
       | [] => [SP]
       end
  else x :: collapse a.
Proof.
  reflexivity.
Qed.

Lemma collapse_blank :
  forall (a : pystr) x,
    is_blank x = true ->
    collapse (x :: a) = SP :: collapse (drop_run is_blank a).
Proof.
  induction a as [|y a IH]; intros x Hx; rewrite collapse_cons, Hx;
    [reflexivity|].
  cbn [drop_run]. destruct (is_blank y) eqn:Hy; [now apply IH|reflexivity].
Qed.

Lemma collapse_unfold (a : pystr) :
  collapse a =
  take_run (fun c => negb (is_blank c)) a
  ++ match drop_run (fun c => negb (is_blank c)) a with
     | [] => []
     | r => SP :: collapse (drop_run is_blank r)
     end.
Proof.
  induction a as [|x a IH]; [reflexivity|].
  cbn [take_run drop_run]. destruct (is_blank x) eqn:Hx; cbn [negb].
  - rewrite (collapse_blank a x Hx). cbn [drop_run app]. now rewrite Hx.
  - rewrite collapse_cons, Hx, IH. reflexivity.
Qed.

(** [sub] with the pattern of blanks and one space is [collapse]. *)
Lemma sub_loop_blanks :
  forall f adv b (a : pystr),
    turns adv a <= f -> sub_loop f blanks [SP] adv b a = collapse a.
Proof.
  induction f as [|f IH]; intros adv b a H.
  - unfold turns in H. destruct a; [reflexivity|simpl in H; lia].
  - cbn [sub_loop]. destruct (search_from blanks adv b a) as [[sk e]|] eqn:S.
    + pose proof (ReFacts.search_from_turns _ _ _ _ _ _ S) as T.
      rewrite IH by lia. rewrite search_from_blanks in S.
      rewrite (collapse_unfold a).
      destruct (drop_run (fun c => negb (is_blank c)) a) as [|y r];
        [discriminate|].
      injection S as <- <-. reflexivity.
    + rewrite search_from_blanks in S. rewrite (collapse_unfold a).
      destruct (drop_run (fun c => negb (is_blank c)) a) as [|y r] eqn:D;
        [|discriminate].
      rewrite <- (take_drop_run (fun c => negb (is_blank c)) a) at 1.
      now rewrite D.
Qed.

Lemma normalize_eq (t : pystr) :
  _normalize (Some t) = strip (collapse (replace_char NBSP SP t)).
Proof.
  unfold _normalize. destruct t as [|x t]; [reflexivity|].
  cbn [truthy negb]. unfold sub. fold blanks.
  now rewrite sub_loop_blanks.
Qed.

(** *** What [strip] leaves *)

Lemma lstrip_head (s : pystr) c r :
  lstrip s = c :: r -> Unicode.is_space c = false.
Proof.
  induction s as [|x s IH]; simpl; [discriminate|].
  destruct (Unicode.is_space x) eqn:E; [exact IH|].
  intros [= <- _]. exact E.
Qed.

Lemma lstrip_fixed (s : pystr) :
  (forall c r, s = c :: r -> Unicode.is_space c = false) -> lstrip s = s.
Proof.
  destruct s as [|x s]; [reflexivity|]. intros H. simpl.
  now rewrite (H x s eq_refl).
Qed.

Lemma lstrip_decomp (s : pystr) :
  exists l, s = l ++ lstrip s /\ forallb Unicode.is_space l = true.
Proof.
  induction s as [|x s (l & Hl & Hs)]; [now exists []|]. simpl.
  destruct (Unicode.is_space x) eqn:E.
  - exists (x :: l). simpl. rewrite E, Hs. split; [now f_equal|reflexivity].
  - now exists [].
Qed.

Lemma lstrip_app_visible (l : pystr) y :
  Unicode.is_space y = false -> lstrip (l ++ [y]) = lstrip l ++ [y].
Proof.
  intros Hy. induction l as [|x l IH]; simpl; [now rewrite Hy|].
  destruct (Unicode.is_space x); [exact IH|reflexivity].
Qed.

Lemma strip_decomp (s : pystr) :
  exists l r,
    s = l ++ strip s ++ r /\
    forallb Unicode.is_space l = true /\ forallb Unicode.is_space r = true.
Proof.
  unfold strip, rstrip.
  destruct (lstrip_decomp s) as (l & Hl & Hls).
  destruct (lstrip_decomp (rev (lstrip s))) as (r & Hr & Hrs).
  exists l, (rev r). split; [|split; [exact Hls|]].
  - rewrite Hl at 1. f_equal.
    rewrite <- (rev_involutive (lstrip s)) at 1. rewrite Hr at 1.
    now rewrite rev_app_distr.
  - rewrite forallb_forall in *. intros x Hx. apply Hrs. now apply in_rev.
Qed.

Lemma strip_head (s : pystr) c r :
  strip s = c :: r -> Unicode.is_space c = false.
Proof.
  unfold strip, rstrip. destruct (lstrip s) as [|y u] eqn:E;
    [discriminate|].
  pose proof (lstrip_head s y u E) as Hy. simpl rev.
  rewrite lstrip_app_visible by exact Hy. rewrite rev_app_distr. simpl.
  intros [= <- _]. exact Hy.
Qed.

Lemma strip_last (s : pystr) l c :
  strip s = l ++ [c] -> Unicode.is_space c = false.
Proof.
  unfold strip, rstrip. intros H.
  apply (f_equal (@rev N)) in H. rewrite rev_involutive, rev_app_distr in H.
  simpl in H. exact (lstrip_head _ _ _ H).
Qed.

Lemma strip_fixed (s : pystr) :
  (forall c r, s = c :: r -> Unicode.is_space c = false) ->
  (forall l c, s = l ++ [c] -> Unicode.is_space c = false) ->
  strip s = s.
Proof.
  intros Hh Hl. unfold strip, rstrip. rewrite (lstrip_fixed s Hh).
  rewrite lstrip_fixed; [apply rev_involutive|].
  intros c r H. apply (Hl (rev r) c).
  rewrite <- (rev_involutive s), H. reflexivity.
Qed.

Lemma visible_app (s1 s2 : pystr) :
  visible (s1 ++ s2) = visible s1 ++ visible s2.
Proof.
  apply filter_app.
Qed.

Lemma visible_nil_iff (s : pystr) :
  visible s = [] <-> forallb Unicode.is_space s = true.
Proof.
  unfold visible. induction s as [|x s IH]; simpl; [tauto|].
  destruct (Unicode.is_space x); simpl; [exact IH|].
  split; discriminate.
Qed.

Lemma visible_strip (s : pystr) : visible (strip s) = visible s.
Proof.
  destruct (strip_decomp s) as (l & r & Hs & Hl & Hr).
  rewrite Hs at 2. rewrite !visible_app.
  apply visible_nil_iff in Hl, Hr. rewrite Hl, Hr. simpl.
  now rewrite app_nil_r.
Qed.

(** *** What [collapse] leaves *)

Lemma In_collapse (a : pystr) c :
  In c (collapse a) -> c = SP \/ (In c a /\ is_blank c = false).
Proof.
  induction a as [|x a IH]; [contradiction|]. rewrite collapse_cons.
  destruct (is_blank x) eqn:Hx.
  - destruct a as [|y a']; [intros [H|[]]; auto|].
    destruct (is_blank y) eqn:Hy.
    + intros H. destruct (IH H) as [?|[? ?]]; [auto|right; simpl; auto].
    + intros [H|H]; [auto|].
      destruct (IH H) as [?|[? ?]]; [auto|right; simpl; auto].
  - intros [H|H]; [subst; right; simpl; auto|].
    destruct (IH H) as [?|[? ?]]; [auto|right; simpl; auto].
Qed.

Lemma collapse_no_double_space :
  forall (a l r : pystr), collapse a <> l ++ SP :: SP :: r.
Proof.
  induction a as [|x a IH]; intros l r.
  - destruct l; discriminate.
  - rewrite collapse_cons. destruct (is_blank x) eqn:Hx.
    + destruct a as [|y a'].
      * destruct l as [|? [|? ?]]; discriminate.
      * destruct (is_blank y) eqn:Hy; [apply IH|].
        destruct l as [|z l].
        -- cbn [app]. rewrite collapse_cons, Hy. intros [= E _].
           rewrite E in Hy. discriminate.
        -- cbn [app]. intros [= _ E]. exact (IH l r E).
    + destruct l as [|z l]; simpl.
      * intros [= E _]. rewrite E in Hx. discriminate.
      * intros [= _ E]. exact (IH l r E).
Qed.

Lemma collapse_fixed (a : pystr) :
  ~ In TAB a -> (forall l r, a <> l ++ SP :: SP :: r) -> collapse a = a.
Proof.
  induction a as [|x a IH]; intros Ht Hd; [reflexivity|].
  assert (IH' : collapse a = a).
  { apply IH; [intros H; apply Ht; now right|].
    intros l r E. apply (Hd (x :: l) r). now rewrite E. }
  rewrite collapse_cons. destruct (is_blank x) eqn:Hx; [|now rewrite IH'].
  apply is_blank_iff in Hx.
  destruct Hx as [->| ->]; [|destruct Ht; now left].
  destruct a as [|y a']; [reflexivity|].
  destruct (is_blank y) eqn:Hy; [|now rewrite IH'].
  apply is_blank_iff in Hy. destruct Hy as [->| ->].
  - destruct (Hd [] a' eq_refl).
  - destruct Ht. right. now left.
Qed.

Lemma visible_collapse (a : pystr) : visible (collapse a) = visible a.
Proof.
  induction a as [|x a IH]; [reflexivity|]. rewrite collapse_cons.
  unfold visible in *. destruct (is_blank x) eqn:Hx.
  - simpl. rewrite (is_blank_space x Hx). simpl.
    destruct a as [|y a']; [reflexivity|].
    destruct (is_blank y); [exact IH|]. simpl filter at 1.
    change (Unicode.is_space SP) with true. simpl. exact IH.
  - simpl. now rewrite IH.
Qed.

Lemma visible_replace_nbsp (t : pystr) :
  visible (replace_char NBSP SP t) = visible t.
Proof.
  unfold visible, replace_char. induction t as [|x t IH]; [reflexivity|].
  simpl. destruct (N.eqb_spec x NBSP) as [->|Hx]; simpl; now rewrite IH.
Qed.

Lemma replace_char_fixed old new (t : pystr) :
  ~ In old t -> replace_char old new t = t.
Proof.
  unfold replace_char. induction t as [|x t IH]; intros H; [reflexivity|].
  simpl. destruct (N.eqb_spec x old) as [->|Hx].
  - destruct H. now left.
  - f_equal. apply IH. intros H'. apply H. now right.
Qed.

Lemma In_replace_char old new (t : pystr) c :
  In c (replace_char old new t) -> c = new \/ (In c t /\ c <> old).
Proof.
  unfold replace_char. intros H. apply in_map_iff in H.
  destruct H as (x & Hx & Hin). destruct (N.eqb_spec x old) as [E|Hne].
  - left. congruence.
  - right. subst. auto.
Qed.

(** What a normalized text looks like. *)
Lemma normalize_shape (t : pystr) :
  let u := _normalize (Some t) in
  ~ In TAB u /\ ~ In NBSP u /\
  (forall l r, u <> l ++ SP :: SP :: r) /\
  (forall c r, u = c :: r -> Unicode.is_space c = false) /\
  (forall l c, u = l ++ [c] -> Unicode.is_space c = false).
Proof.
  cbv zeta. rewrite normalize_eq.
  split; [|split; [|split; [|split]]].
  - intros H. apply strip_incl, In_collapse in H.
    destruct H as [H|[_ H]]; discriminate.
  - intros H. apply strip_incl, In_collapse in H.
    destruct H as [H|[H _]]; [discriminate|].
    apply In_replace_char in H. destruct H as [H|[_ H]];
      [discriminate|now destruct H].
  - intros l r E.
    destruct (strip_decomp (collapse (replace_char NBSP SP t)))
      as (l0 & r0 & Hs & _).
    rewrite E in Hs.
    apply (collapse_no_double_space (replace_char NBSP SP t) (l0 ++ l)
             (r ++ r0)).
    rewrite Hs. now rewrite <- !app_assoc.
  - apply strip_head.
  - apply strip_last.
Qed.


Lemma normalize_fixed (u : pystr) :
  ~ In TAB u -> ~ In NBSP u ->
  (forall l r, u <> l ++ SP :: SP :: r) ->
  (forall c r, u = c :: r -> Unicode.is_space c = false) ->
  (forall l c, u = l ++ [c] -> Unicode.is_space c = false) ->
  _normalize (Some u) = u.
Proof.
  intros Ht Hn Hd Hh Hl. rewrite normalize_eq.
  rewrite replace_char_fixed by exact Hn.
  rewrite collapse_fixed by assumption. now apply strip_fixed.
Qed.

Lemma visible_normalize (t : pystr) :
  visible (_normalize (Some t)) = visible t.
Proof.
  rewrite normalize_eq, visible_strip, visible_collapse.
  apply visible_replace_nbsp.
Qed.

(** ** Sentence splitting *)

Lemma repeat_one_plus_nil_iff test b (a : pystr) :
  repeat_one test true 1 None b a = [] <-> take_run test a = [].
Proof.
  split; [|apply repeat_one_plus_none].
  intros H. destruct (take_run test a) as [|x r] eqn:E; [reflexivity|].
  destruct (repeat_one_greedy_first test a 1 b) as (tl & Ht);
    [rewrite E; simpl; lia|].
  rewrite H in Ht. discriminate.
Qed.

(** The matches of [_SENT_SPLIT] at a position. *)
Lemma ends_SENT_SPLIT b (a : pystr) :
  ends false (pat _SENT_SPLIT) (b, a) =
  match b with
  | y :: _ =>
      if ends_sentence y then repeat_one Unicode.is_space true 1 None b a
      else []
  | [] => []
  end ++ repeat_one (cmatch false (Lit NL)) true 1 None b a.
Proof.
  cbn [_SENT_SPLIT pat plus ends fst snd]. f_equal.
  destruct b as [|y b]; [reflexivity|]. fold (ends_sentence y).
  destruct (ends_sentence y); [|reflexivity].
  cbn [flat_map ends fst snd]. apply app_nil_r.
Qed.

(** A separator is a non-empty run of white space. *)
Lemma In_ends_SENT_SPLIT b (a : pystr) e :
  In e (ends false (pat _SENT_SPLIT) (b, a)) ->
  exists w, a = w ++ snd e /\ fst e = rev w ++ b /\ w <> [] /\
            forallb Unicode.is_space w = true.
Proof.
  rewrite ends_SENT_SPLIT. intros H. apply in_app_iff in H.
  destruct e as [b' a'].
  assert (G : forall test,
             (forall c, test c = true -> Unicode.is_space c = true) ->
             In (b', a') (repeat_one test true 1 None b a) ->
             exists w, a = w ++ a' /\ b' = rev w ++ b /\ w <> [] /\
                       forallb Unicode.is_space w = true).
  { intros test Ht Hin. apply ReFacts.repeat_one_In in Hin.
    destruct Hin as (w & Ha & Hb & Hall & Hlo & _). exists w.
    repeat split; auto.
    - intros ->. simpl in Hlo. lia.
    - rewrite forallb_forall in *. auto. }
  destruct H as [H|H].
  - destruct b as [|y b0]; [contradiction|].
    destruct (ends_sentence y); [|contradiction]. apply (G _ (fun c H => H) H).
  - apply (G (cmatch false (Lit NL))); [|exact H].
    intros c Hc. simpl in Hc. apply N.eqb_eq in Hc. now subst.
Qed.

Lemma first_end_SENT_SPLIT_None adv b (a : pystr) :
  first_end adv (b, a) (ends false (pat _SENT_SPLIT) (b, a)) = None <->
  ends false (pat _SENT_SPLIT) (b, a) = [].
Proof.
  split; [|now intros ->].
  destruct (ends false (pat _SENT_SPLIT) (b, a)) as [|e es] eqn:E;
    [reflexivity|].
  intros F. assert (Hin : In e (ends false (pat _SENT_SPLIT) (b, a)))
    by (rewrite E; now left).
  rewrite <- E in F.
  destruct (ReFacts.first_end_None _ _ _ _ F Hin) as [_ L].
  apply In_ends_SENT_SPLIT in Hin. destruct Hin as (w & Ha & _ & Hw & _).
  simpl in L. rewrite Ha, length_app in L. destruct w; [congruence|].
  simpl in L. lia.
Qed.

Lemma ends_SENT_SPLIT_nil_iff b x (a : pystr) :
  ends false (pat _SENT_SPLIT) (b, x :: a) = [] <->
  sep_start (hd_error b) x = false.
Proof.
  rewrite ends_SENT_SPLIT. unfold sep_start. split.
  - intros H. apply app_eq_nil in H. destruct H as [H1 H2].
    apply repeat_one_plus_nil_iff in H2. simpl in H2.
    destruct (x =? NL)%N; [discriminate|]. rewrite orb_false_r.
    destruct b as [|y b]; [reflexivity|]. simpl.
    destruct (ends_sentence y); [|reflexivity].
    apply repeat_one_plus_nil_iff in H1. simpl in H1.
    now destruct (Unicode.is_space x).
  - intros H. apply orb_false_iff in H. destruct H as [H1 H2].
    rewrite (repeat_one_plus_none (cmatch false (Lit NL)) true None b
               (x :: a))
      by (cbn [take_run cmatch]; now rewrite H2).
    rewrite app_nil_r. destruct b as [|y b]; [reflexivity|]. simpl in H1.
    destruct (ends_sentence y); [|reflexivity]. simpl in H1.
    apply repeat_one_plus_none. simpl. now rewrite H1.
Qed.

Lemma ends_SENT_SPLIT_at_end b : ends false (pat _SENT_SPLIT) (b, []) = [].
Proof.
  rewrite ends_SENT_SPLIT. destruct b as [|y b]; [reflexivity|].
  now destruct (ends_sentence y).
Qed.

(** A search skips only characters at which no separator starts. *)
Lemma search_from_SENT_SPLIT_skipped :
  forall (a : pystr) adv b,
    match search_from _SENT_SPLIT adv b a with
    | Some (skipped, _) => sep_free (hd_error b) skipped = true
    | None => sep_free (hd_error b) a = true
    end.
Proof.
  induction a as [|x a IH]; intros adv b; cbn [search_from].
  - destruct (first_end _ _ _); reflexivity.
  - destruct (first_end _ _ _) as [e|] eqn:F; [reflexivity|].
    apply first_end_SENT_SPLIT_None, ends_SENT_SPLIT_nil_iff in F.
    specialize (IH false (x :: b)).
    destruct (search_from _SENT_SPLIT false (x :: b) a) as [[sk e]|];
      cbn [sep_free]; rewrite F; exact IH.
Qed.

Lemma search_from_SENT_SPLIT_None :
  forall (a : pystr) adv b,
    sep_free (hd_error b) a = true -> search_from _SENT_SPLIT adv b a = None.
Proof.
  induction a as [|x a IH]; intros adv b H; cbn [search_from].
  - change (ignorecase _SENT_SPLIT) with false.
    now rewrite ends_SENT_SPLIT_at_end.
  - cbn [sep_free] in H. apply andb_true_iff in H. destruct H as [H1 H2].
    apply negb_true_iff in H1.
    change (ignorecase _SENT_SPLIT) with false.
    rewrite (proj2 (ends_SENT_SPLIT_nil_iff b x a) H1). cbn [first_end find].
    now rewrite (IH false (x :: b) H2).
Qed.

Lemma sep_free_weaken prev (s : pystr) :
  sep_free prev s = true -> sep_free None s = true.
Proof.
  destruct s as [|x s]; [reflexivity|]. cbn [sep_free].
  intros H. apply andb_true_iff in H. destruct H as [H1 H2].
  rewrite H2, andb_true_r. apply negb_true_iff in H1.
  unfold sep_start in *. apply orb_false_iff in H1. destruct H1 as [_ H1].
  now rewrite H1.
Qed.

Lemma sep_free_app_r prev (l s : pystr) :
  sep_free prev (l ++ s) = true -> sep_free None s = true.
Proof.
  revert prev. induction l as [|x l IH]; intros prev H.
  - exact (sep_free_weaken prev s H).
  - cbn [app sep_free] in H. apply andb_true_iff in H. apply (IH _ (proj2 H)).
Qed.

Lemma sep_free_app_l prev (s r : pystr) :
  sep_free prev (s ++ r) = true -> sep_free prev s = true.
Proof.
  revert prev. induction s as [|x s IH]; intros prev H; [reflexivity|].
  cbn [app sep_free] in *. apply andb_true_iff in H. destruct H as [H1 H2].
  now rewrite H1, (IH _ H2).
Qed.

Lemma sep_free_no_newline prev (s : pystr) :
  sep_free prev s = true -> ~ In NL s.
Proof.
  revert prev. induction s as [|x s IH]; intros prev H; [intros []|].
  cbn [sep_free] in H. apply andb_true_iff in H. destruct H as [H1 H2].
  apply negb_true_iff in H1. unfold sep_start in H1.
  apply orb_false_iff in H1. destruct H1 as [_ H1]. apply N.eqb_neq in H1.
  intros [E|Hin]; [congruence|exact (IH _ H2 Hin)].
Qed.

(** The pieces of a split are stretches of the subject in which no
    separator starts, and between them only white space is lost. *)
Lemma split_SENT_SPLIT_pieces :
  forall f adv b (a : pystr),
    turns adv a <= f ->
    Forall (fun p => sep_free None p = true
                     /\ exists l r, a = l ++ p ++ r)
      (split_loop f _SENT_SPLIT adv b a) /\
    visible (concat (split_loop f _SENT_SPLIT adv b a)) = visible a.
Proof.
  induction f as [|f IH]; intros adv b a H.
  - unfold turns in H. destruct a; [|simpl in H; lia]. simpl. split; auto.
    repeat constructor. now exists [], [].
  - cbn [split_loop]. pose proof (search_from_SENT_SPLIT_skipped a adv b) as K.
    destruct (search_from _SENT_SPLIT adv b a) as [[sk e]|] eqn:S.
    + pose proof (ReFacts.search_from_turns _ _ _ _ _ _ S) as T.
      apply ReFacts.search_from_Some in S.
      destruct S as (w & Ha & _ & Hin & _).
      apply In_ends_SENT_SPLIT in Hin.
      destruct Hin as (w' & Hw' & _ & _ & Hsp). simpl in Hw'.
      apply app_inv_tail in Hw'. subst w'.
      destruct (IH (is_empty_match a sk e) (fst e) (snd e)) as [IH1 IH2];
        [lia|].
      split.
      * constructor.
        -- split; [exact (sep_free_weaken _ _ K)|].
           exists [], (w ++ snd e). exact Ha.
        -- eapply Forall_impl; [|exact IH1]. cbv beta.
           intros p0 (Hp & l & r & Hl). split; [exact Hp|].
           exists (sk ++ w ++ l), r. rewrite Ha, Hl.
           now rewrite <- !app_assoc.
      * cbn [concat]. rewrite visible_app, IH2, Ha, !visible_app.
        apply visible_nil_iff in Hsp. now rewrite Hsp.
    + split.
      * repeat constructor; [exact (sep_free_weaken _ _ K)|].
        exists [], []. now rewrite app_nil_r.
      * simpl. now rewrite app_nil_r.
Qed.

Lemma sep_free_strip (s : pystr) :
  sep_free None s = true -> sep_free None (strip s) = true.
Proof.
  intros H. destruct (strip_decomp s) as (l & r & Hs & _).
  rewrite Hs in H. apply sep_free_app_r in H. exact (sep_free_app_l _ _ _ H).
Qed.

Lemma sep_start_replace_nbsp prev x :
  let f := fun c => if (c =? NBSP)%N then SP else c in
  sep_start (option_map f prev) (f x) = sep_start prev x.
Proof.
  cbv zeta. unfold sep_start.
  assert (E : forall c, Unicode.is_space (if (c =? NBSP)%N then SP else c)
                        = Unicode.is_space c).
  { intros c. destruct (N.eqb_spec c NBSP) as [->|]; reflexivity. }
  assert (P : forall c, ends_sentence (if (c =? NBSP)%N then SP else c)
                        = ends_sentence c).
  { intros c. destruct (N.eqb_spec c NBSP) as [->|]; reflexivity. }
  assert (L : forall c, ((if (c =? NBSP)%N then SP else c) =? NL)%N
                        = (c =? NL)%N).
  { intros c. destruct (N.eqb_spec c NBSP) as [->|]; reflexivity. }
  rewrite L. destruct prev as [y|]; simpl; [|reflexivity].
  now rewrite P, E.
Qed.

Lemma sep_free_replace_nbsp :
  forall (t : pystr) prev,
    sep_free (option_map (fun c => if (c =? NBSP)%N then SP else c) prev)
      (replace_char NBSP SP t)
    = sep_free prev t.
Proof.
  unfold replace_char. induction t as [|x t IH]; intros prev; [reflexivity|].
  cbn [map sep_free]. rewrite sep_start_replace_nbsp. f_equal.
  exact (IH (Some x)).
Qed.

Lemma blank_not_sentence_end x : is_blank x = true -> ends_sentence x = false.
Proof.
  intros H. apply is_blank_iff in H. destruct H as [->| ->]; reflexivity.
Qed.

Lemma sep_start_blank prev x z :
  sep_start prev x = false -> is_blank x = true -> is_blank z = true ->
  sep_start prev z = false.
Proof.
  unfold sep_start. intros H Hx Hz. apply orb_false_iff in H.
  destruct H as [H _].
  assert (Z : (z =? NL)%N = false).
  { apply is_blank_iff in Hz. destruct Hz as [->| ->]; reflexivity. }
  rewrite Z, orb_false_r. destruct prev as [y|]; [|reflexivity].
  rewrite (is_blank_space x Hx), andb_true_r in H. now rewrite H.
Qed.

Lemma sep_free_prev y y' (a : pystr) :
  ends_sentence y = ends_sentence y' ->
  sep_free (Some y) a = sep_free (Some y') a.
Proof.
  intros E. destruct a as [|x a]; [reflexivity|]. cbn [sep_free].
  unfold sep_start. now rewrite E.
Qed.

Lemma sep_free_collapse :
  forall (a : pystr) prev,
    sep_free prev a = true -> sep_free prev (collapse a) = true.
Proof.
  induction a as [|x a IH]; intros prev H; [reflexivity|].
  cbn [sep_free] in H. apply andb_true_iff in H. destruct H as [H1 H2].
  apply negb_true_iff in H1. rewrite collapse_cons.
  destruct (is_blank x) eqn:Hx.
  - assert (S0 : sep_start prev SP = false)
      by (apply (sep_start_blank prev x SP H1 Hx); reflexivity).
    destruct a as [|y a'].
    + cbn [sep_free]. now rewrite S0.
    + destruct (is_blank y) eqn:Hy.
      * apply IH. cbn [sep_free] in *. apply andb_true_iff in H2.
        destruct H2 as [_ H2].
        now rewrite (sep_start_blank prev x y H1 Hx Hy), H2.
      * cbn [sep_free]. rewrite S0. cbn [negb andb]. apply IH.
        rewrite <- H2. apply sep_free_prev.
        rewrite (blank_not_sentence_end x Hx). reflexivity.
  - cbn [sep_free]. rewrite H1. cbn [negb andb]. now apply IH.
Qed.

Lemma sep_free_normalize (t : pystr) :
  sep_free None t = true -> sep_free None (_normalize (Some t)) = true.
Proof.
  intros H. rewrite normalize_eq. apply sep_free_strip, sep_free_collapse.
  pose proof (sep_free_replace_nbsp t None) as E. cbn [option_map] in E.
  now rewrite E.
Qed.

Lemma strip_normalize (t : pystr) :
  strip (_normalize (Some t)) = _normalize (Some t).
Proof.
  destruct (normalize_shape t) as (_ & _ & _ & Hh & Hl).
  now apply strip_fixed.
Qed.

(** A normalized text in which no separator starts is one sentence. *)
Lemma split_sentences_whole (t : pystr) :
  sep_free None (_normalize (Some t)) = true ->
  _split_sentences (Some t) =
  match _normalize (Some t) with [] => [] | u => [u] end.
Proof.
  intros H. unfold _split_sentences.
  pose proof (strip_normalize t) as St.
  destruct (_normalize (Some t)) as [|x u]; [reflexivity|].
  cbn [truthy negb]. unfold split, turns.
  rewrite Nat.add_1_r. cbn [split_loop].
  rewrite (search_from_SENT_SPLIT_None (x :: u) false [] H).
  cbn [filter truthy andb]. rewrite St. cbn [truthy map]. now rewrite St.
Qed.

(** What a sentence looks like. *)
Lemma sentence_shape (text : option pystr) (s : pystr) :
  In s (_split_sentences text) ->
  s <> [] /\
  (forall c r, s = c :: r -> Unicode.is_space c = false) /\
  (forall l c, s = l ++ [c] -> Unicode.is_space c = false) /\
  sep_free None s = true /\
  (exists l r, _normalize text = l ++ s ++ r).
Proof.
  unfold _split_sentences.
  destruct (negb (truthy (_normalize text))); [contradiction|].
  intros H. apply in_map_iff in H. destruct H as (p & <- & H).
  apply filter_In in H. destruct H as [Hp Hg].
  apply andb_true_iff in Hg. destruct Hg as [_ Hg].
  destruct (split_SENT_SPLIT_pieces (turns false (_normalize text)) false []
              (_normalize text) (Nat.le_refl _)) as [HF _].
  rewrite Forall_forall in HF. destruct (HF p Hp) as (Hfree & l & r & Hu).
  split; [|split; [|split; [|split]]].
  - intros E. rewrite E in Hg. discriminate.
  - apply strip_head.
  - apply strip_last.
  - now apply sep_free_strip.
  - destruct (strip_decomp p) as (l' & r' & Hs & _).
    exists (l ++ l'), (r' ++ r). rewrite Hu. rewrite Hs at 1.
    now rewrite <- !app_assoc.
Qed.

Lemma sentence_is_normalized (text : option pystr) (s : pystr) :
  In s (_split_sentences text) -> _normalize (Some s) = s.
Proof.
  intros H. destruct text as [t|]; [|contradiction H].
  destruct (sentence_shape (Some t) s H) as (_ & Hh & Hl & _ & l & r & Hu).
  destruct (normalize_shape t) as (Ht & Hn & Hd & _).
  cbv zeta in *. rewrite Hu in Ht, Hn, Hd.
  apply normalize_fixed; auto.
  - intros Hin. apply Ht. apply in_or_app. right. apply in_or_app. now left.
  - intros Hin. apply Hn. apply in_or_app. right. apply in_or_app. now left.
  - intros l0 r0 E. apply (Hd (l ++ l0) (r0 ++ r)). rewrite E.
    now rewrite <- !app_assoc.
Qed.

Lemma split_sentences_fixed (text : option pystr) (s : pystr) :
  In s (_split_sentences text) -> _split_sentences (Some s) = [s].
Proof.
  intros H. pose proof (sentence_is_normalized text s H) as N.
  destruct (sentence_shape text s H) as (Hne & _ & _ & Hfree & _).
  rewrite split_sentences_whole; rewrite N; [|exact Hfree].
  destruct s; [congruence|reflexivity].
Qed.

Lemma visible_sentences (t : pystr) :
  visible (concat (_split_sentences (Some t))) = visible t.
Proof.
  rewrite <- (visible_normalize t). unfold _split_sentences.
  destruct (_normalize (Some t)) as [|x u] eqn:E; [reflexivity|].
  cbn [truthy negb]. rewrite <- E.
  destruct (split_SENT_SPLIT_pieces (turns false (_normalize (Some t))) false
              [] (_normalize (Some t)) (Nat.le_refl _)) as [_ HV].
  unfold split. rewrite <- HV. clear HV.
  induction (split_loop (turns false (_normalize (Some t))) _SENT_SPLIT false
               [] (_normalize (Some t))) as [|p parts IH]; [reflexivity|].
  cbn [filter concat]. rewrite visible_app, <- IH.
  destruct (truthy p && truthy (strip p)) eqn:G.
  - cbn [map concat]. now rewrite visible_app, visible_strip.
  - assert (V : visible p = []).
    { apply andb_false_iff in G. destruct G as [G|G].
      - destruct p; [reflexivity|discriminate].
      - rewrite <- visible_strip.
        destruct (strip p); [reflexivity|discriminate]. }
    now rewrite V.
Qed.

(** ** The rules, one by one *)

Lemma rules_id_unique r r' :
  In r _RULES -> In r' _RULES -> snd r = snd r' -> r = r'.
Proof.
  unfold _RULES. cbn [In]. intros Hr Hr' E.
  repeat (destruct Hr as [<-|Hr]);
    repeat (destruct Hr' as [<-|Hr']);
    cbn [snd] in E; try discriminate E; try reflexivity; contradiction.
Qed.

(** A rule gives a hit for a sentence exactly when its pattern is found
    in the sentence and the whitelist does not hold it back. *)
Lemma rule_hit_iff txt company i sent rule :
  nth_error (_split_sentences txt) i = Some sent ->
  In rule _RULES ->
  ((exists h, In h (hits (scan txt company)) /\ sent_idx h = i /\
              rule_id h = snd rule /\ cat h = fst (fst rule)) <->
   (search (snd (fst rule)) sent = true /\
    Category_eqb (fst (fst rule)) no_3rd
      && search (compile THIRD_PARTY_STD true) sent = false)).
Proof.
  intros Hn Hr. split.
  - intros (h & Hin & Hi & Hid & _). apply hit_fields in Hin.
    destruct Hin as (sent0 & rule' & Hn0 & Hr' & Hc & Hrid & _ & Hw & Hs).
    rewrite Hi, Hn in Hn0. injection Hn0 as <-.
    assert (rule' = rule) by (apply rules_id_unique; congruence).
    subst rule'. rewrite Hc in Hw. auto.
  - intros [Hs Hw].
    exists (mkRuleHit (fst (fst rule)) (snd rule) (firstn 400 sent) i).
    split; [|repeat split]. apply In_hits. exists i, sent.
    split; [exact Hn|]. apply In_sentence_hits. exists rule.
    split; [exact Hr|]. destruct rule as [[c rx] rid]. unfold rule_hits.
    cbn [fst snd] in *. rewrite Hw, Hs. now left.
Qed.

(** The pattern [t(?!.*q)] is found in a text without newlines where a
    word of [t] has no word of [q] after it. *)
Lemma lookahead_rule_found (t q : re) (s : pystr) :
  plain t = true -> plain q = true -> ~ In NL s ->
  (search (compile (Seq t (NegAhead (Seq dotstar q))) true) s = true <->
   exists pre w rest,
     s = pre ++ w ++ rest /\ lang true t w /\ ~ occurs (lang true q) rest).
Proof.
  intros Pt Pq Hnl. rewrite ReFacts.search_true_iff. cbn [pat ignorecase].
  split.
  - intros (pre & post & e & Hs & Hin).
    apply ends_Seq in Hin. destruct Hin as ([b1 a1] & H1 & H2).
    apply ends_NegAhead in H2. destruct H2 as [H2 ->].
    apply (ReFacts.ends_plain true t Pt) in H1.
    destruct H1 as (w & Ha & _ & L). simpl in Ha.
    apply lookahead_fails_iff in H2; [|exact Pq|].
    + exists pre, w, a1. split; [congruence|]. auto.
    + intros Hx. apply Hnl. rewrite Hs, Ha.
      apply in_or_app. right. apply in_or_app. now right.
  - intros (pre & w & rest & Hs & Hw & Hm).
    exists pre, (w ++ rest), (rev w ++ rev pre, rest). split; [exact Hs|].
    apply ends_Seq. exists (rev w ++ rev pre, rest). split.
    + apply (ReFacts.ends_plain true t Pt). exists w. simpl. auto.
    + apply ends_NegAhead. split; [|reflexivity].
      apply lookahead_fails_iff; [exact Pq| |exact Hm].
      intros Hx. apply Hnl. rewrite Hs.
      apply in_or_app. right. apply in_or_app. now right.
Qed.

Lemma occurs_iff (P Q : pystr -> Prop) (s : pystr) :
  (forall w, P w <-> Q w) -> (occurs P s <-> occurs Q s).
Proof.
  intros H. unfold occurs. split; intros (pre & w & post & Hs & Hw);
    exists pre, w, post; (split; [exact Hs|]); now apply H.
Qed.

Lemma occurs_inside (P : pystr -> Prop) (l s r : pystr) :
  occurs P s -> occurs P (l ++ s ++ r).
Proof.
  intros (pre & w & post & -> & Hw). exists (l ++ pre), w, (post ++ r).
  split; [now rewrite <- !app_assoc|exact Hw].
Qed.

Lemma occurs_after (P : pystr -> Prop) (l s : pystr) :
  occurs P s -> occurs P (l ++ s).
Proof.
  intros (pre & w & post & -> & Hw). exists (l ++ pre), w, post.
  split; [now rewrite <- !app_assoc|exact Hw].
Qed.

Lemma same_text_app (p1 p2 w : pystr) :
  same_text (p1 ++ p2) w <->
  exists w1 w2, w = w1 ++ w2 /\ same_text p1 w1 /\ same_text p2 w2.
Proof.
  unfold same_text. split.
  - intros H. apply Forall2_app_inv_l in H.
    destruct H as (w1 & w2 & H1 & H2 & ->). now exists w1, w2.
  - intros (w1 & w2 & -> & H1 & H2). now apply Forall2_app.
Qed.

(** Case analysis on a disjunction of any length, and the word of a list
    that a hypothesis is about. *)
Ltac split_alts H :=
  match type of H with
  | _ \/ _ => destruct H as [H|H]; [split_alts H|split_alts H]
  | False => contradiction
  | _ => idtac
  end.

Ltac word_of_list H :=
  eexists; (split; [|exact H]); cbn [In]; tauto.

(** *** Rule 901 *)

Lemma lang_VAGUE_VERBS w : lang true VAGUE_VERBS w <-> is_vague_verb w.
Proof.
  unfold VAGUE_VERBS, is_vague_verb, vague_verbs. cbn [lang].
  rewrite !lang_Str. split.
  - intros H. split_alts H; word_of_list H.
  - intros (v & Hv & H). cbn [In] in Hv. split_alts Hv; subst; tauto.
Qed.

(** *** Rule 402 *)

Lemma lang_hyphen_or_space a b w :
  lang true (Seq (Str a) (Seq (Chr (OneOf (str "- "))) (Str b))) w <->
  same_text (str a ++ str "-" ++ str b) w \/
  same_text (str a ++ str " " ++ str b) w.
Proof.
  cbn [lang]. rewrite !same_text_app. split.
  - intros (w1 & w' & -> & H1 & w2 & w3 & -> & (x & -> & Hx) & H3).
    apply lang_Str in H1, H3. simpl in Hx. rewrite orb_false_r in Hx.
    apply orb_true_iff in Hx.
    destruct Hx as [Hx|Hx]; [left|right]; exists w1, ([x] ++ w3);
      (repeat split; [exact H1|]); apply same_text_app; exists [x], w3;
      (repeat split; [|exact H3]); repeat constructor; exact Hx.
  - intros [(w1 & w' & -> & H1 & H')|(w1 & w' & -> & H1 & H')];
      apply same_text_app in H'; destruct H' as (wx & w3 & -> & Hx & H3);
      inversion Hx as [|p x l l' Hpx Hnil]; subst; inversion Hnil; subst;
      exists w1, ([x] ++ w3); rewrite lang_Str;
      (repeat split; [exact H1|]); exists [x], w3; rewrite lang_Str;
      (repeat split; [|exact H3]); exists x; (split; [reflexivity|]);
      simpl; rewrite Hpx; auto using orb_true_r.
Qed.

Lemma lang_SCOPE2_AMBIG w : lang true SCOPE2_AMBIG w <-> is_scope2_term w.
Proof.
  unfold SCOPE2_AMBIG, is_scope2_term. cbn [lang]. now rewrite !lang_Str.
Qed.

Lemma lang_SCOPE2_QUAL w : lang true SCOPE2_QUAL w <-> is_scope2_qualifier w.
Proof.
  unfold SCOPE2_QUAL, is_scope2_qualifier, scope2_qualifiers.
  change (lang true (Group ?r) w) with (lang true r w).
  repeat match goal with
  | |- context [lang true (Alt ?r1 ?r2) w] =>
      change (lang true (Alt r1 r2) w)
        with (lang true r1 w \/ lang true r2 w)
  end.
  rewrite !lang_hyphen_or_space, !lang_Str. split.
  - intros H. split_alts H; word_of_list H.
  - intros (v & Hv & H). cbn [In] in Hv. split_alts Hv; subst; tauto.
Qed.

Lemma misleading_402_found (sent : pystr) :
  ~ In NL sent ->
  (search (compile (Seq SCOPE2_AMBIG (NegAhead (Seq dotstar SCOPE2_QUAL)))
             true) sent = true <->
   exists pre w rest,
     sent = pre ++ w ++ rest /\ is_scope2_term w /\
     ~ occurs is_scope2_qualifier rest).
Proof.
  intros Hnl. rewrite lookahead_rule_found by (reflexivity || exact Hnl).
  split; intros (pre & w & rest & Hs & Hw & Hq); exists pre, w, rest;
    (split; [exact Hs|]); (split; [now apply lang_SCOPE2_AMBIG|]);
    intros O; apply Hq; revert O;
    apply (occurs_iff _ _ rest lang_SCOPE2_QUAL).
Qed.

(** *** Rule 303 *)

Lemma lang_plus_Space ic ws :
  lang ic (plus Space) ws <-> spaces ws /\ ws <> [].
Proof.
  unfold plus, spaces. simpl. split.
  - intros (H & L & _). split; [exact H|]. intros ->. simpl in L. lia.
  - intros [H Hne]. repeat split; [exact H| |discriminate].
    destruct ws; [congruence|simpl; lia].
Qed.

Lemma lang_separate_disclosure w :
  lang true
    (Group (Alt (Str "separate")
              (Alt (Str "disclose")
                 (Seq (Str "outside")
                    (Seq (plus Space) (Str "inventory")))))) w <->
  is_separate_disclosure w.
Proof.
  unfold is_separate_disclosure. cbn [lang]. rewrite !lang_Str.
  apply or_iff_compat_l, or_iff_compat_l. split.
  - intros (w1 & w' & -> & H1 & ws & w2 & -> & Hs & H2).
    apply lang_plus_Space in Hs. destruct Hs as [Hs Hne].
    apply lang_Str in H1, H2. exists w1, ws, w2. auto.
  - intros (w1 & ws & w2 & -> & H1 & Hs & Hne & H2).
    apply lang_Str in H1, H2.
    exists w1, (ws ++ w2). repeat split; [exact H1|].
    exists ws, w2. rewrite lang_plus_Space. auto.
Qed.

Lemma lang_AVOIDED_EMISSIONS w :
  lang true AVOIDED_EMISSIONS w <-> is_avoided_term w.
Proof.
  unfold AVOIDED_EMISSIONS, is_avoided_term. cbn [lang].
  now rewrite !lang_Str.
Qed.

Lemma misleading_303_found (sent : pystr) :
  ~ In NL sent ->
  (search
     (compile
        (Seq AVOIDED_EMISSIONS
           (NegAhead
              (Seq dotstar
                 (Group (Alt (Str "separate")
                           (Alt (Str "disclose")
                              (Seq (Str "outside")
                                 (Seq (plus Space) (Str "inventory")))))))))
        true) sent = true <->
   exists pre w rest,
     sent = pre ++ w ++ rest /\ is_avoided_term w /\
     ~ occurs is_separate_disclosure rest).
Proof.
  intros Hnl. rewrite lookahead_rule_found by (reflexivity || exact Hnl).
  split; intros (pre & w & rest & Hs & Hw & Hq); exists pre, w, rest;
    (split; [exact Hs|]); (split; [now apply lang_AVOIDED_EMISSIONS|]);
    intros O; apply Hq; revert O;
    apply (occurs_iff _ _ rest lang_separate_disclosure).
Qed.

(** *** Rule 302 and the whitelist *)

Lemma lang_THIRD_PARTY_STD w :
  lang true THIRD_PARTY_STD w <-> names_standard w.
Proof.
  unfold THIRD_PARTY_STD, names_standard.
  change (lang true (Group ?r) w) with (lang true r w).
  repeat match goal with
  | |- context [lang true (Alt ?r1 ?r2) w] =>
      change (lang true (Alt r1 r2) w)
        with (lang true r1 w \/ lang true r2 w)
  end.
  rewrite !lang_two_words, !lang_Str. reflexivity.
Qed.

Lemma whitelist_iff (sent : pystr) :
  search (compile THIRD_PARTY_STD true) sent = true <->
  occurs names_standard sent.
Proof.
  rewrite search_plain_iff by reflexivity.
  apply occurs_iff, lang_THIRD_PARTY_STD.
Qed.

Lemma lang_NEUTRAL_OFFSET_claim w :
  lang true NEUTRAL_OFFSET w ->
  exists u s, w = u ++ s /\ offset_claim u.
Proof.
  unfold NEUTRAL_OFFSET, dotstar_lazy. cbn [lang].
  intros (w1 & r1 & -> & HA & g1 & r2 & -> & _ & w2 & r3 & -> & HB
          & g2 & r4 & -> & _ & w3 & s & -> & HC & _).
  repeat rewrite lang_Str in HA. repeat rewrite lang_Str in HB.
  repeat rewrite lang_Str in HC.
  exists (w1 ++ g1 ++ w2 ++ g2 ++ w3), s. split.
  - now rewrite <- !app_assoc.
  - exists w1, g1, w2, g2, w3. repeat split; assumption.
Qed.

Lemma no_newline_dots (g : pystr) :
  ~ In NL g -> forallb (cmatch true Dot) g = true.
Proof.
  intros H. apply forallb_forall. intros x Hx. simpl.
  apply negb_true_iff, N.eqb_neq. intros ->. exact (H Hx).
Qed.

Lemma offset_claim_lang u :
  ~ In NL u -> offset_claim u -> lang true NEUTRAL_OFFSET u.
Proof.
  intros Hnl (w1 & g1 & w2 & g2 & w3 & -> & HA & HB & HC).
  repeat rewrite <- lang_Str in HA. repeat rewrite <- lang_Str in HB.
  repeat rewrite <- lang_Str in HC.
  unfold NEUTRAL_OFFSET, dotstar_lazy. cbn [lang].
  exists w1, (g1 ++ w2 ++ g2 ++ w3). repeat split; [exact HA|].
  exists g1, (w2 ++ g2 ++ w3). split; [reflexivity|]. split.
  { repeat split; [|lia|discriminate]. apply no_newline_dots.
    intros H. apply Hnl. apply in_or_app. right. apply in_or_app. now left. }
  exists w2, (g2 ++ w3). repeat split; [exact HB|].
  exists g2, w3. split; [reflexivity|]. split.
  { repeat split; [|lia|discriminate]. apply no_newline_dots.
    intros H. apply Hnl. apply in_or_app. right. apply in_or_app. right.
    apply in_or_app. right. apply in_or_app. now left. }
  exists w3, []. rewrite app_nil_r. repeat split; [exact HC| |].
  - simpl. lia.
  - intros h _. simpl. lia.
Qed.

(** With the whitelist in force the lookahead of rule 302 decides
    nothing: the rule gives a hit where a claim occurs and no standard is
    named anywhere in the sentence. *)
Lemma no_3rd_found (sent : pystr) :
  ~ In NL sent ->
  (search (compile (Seq NEUTRAL_OFFSET
                      (NegAhead (Seq dotstar THIRD_PARTY_STD))) true) sent
   = true /\
   search (compile THIRD_PARTY_STD true) sent = false
   <->
   occurs offset_claim sent /\ ~ occurs names_standard sent).
Proof.
  intros Hnl. rewrite lookahead_rule_found by (reflexivity || exact Hnl).
  rewrite <- whitelist_iff. split.
  - intros [(pre & w & rest & Hs & Hw & _) Hstd]. split.
    + apply lang_NEUTRAL_OFFSET_claim in Hw. destruct Hw as (u & s & -> & Hu).
      exists pre, u, (s ++ rest). split; [now rewrite <- app_assoc in Hs|].
      exact Hu.
    + rewrite Hstd. discriminate.
  - intros [(pre & u & post & Hs & Hu) Hstd]. split.
    + exists pre, u, post. split; [exact Hs|]. split.
      * apply offset_claim_lang; [|exact Hu]. intros H. apply Hnl.
        rewrite Hs. apply in_or_app. right. apply in_or_app. now left.
      * intros O. apply Hstd. apply whitelist_iff.
        rewrite Hs, app_assoc. apply occurs_after.
        exact (proj1 (occurs_iff _ _ post lang_THIRD_PARTY_STD) O).
    + destruct (search (compile THIRD_PARTY_STD true) sent); [|reflexivity].
      now destruct Hstd.
Qed.

(** *** Rule 202 *)

Lemma lang_Str_uncased a w :
  Forall (fun c => Unicode.is_ascii_lower (Unicode.ascii_lower c) = false)
    (str a) ->
  (lang true (Str a) w <-> w = str a).
Proof.
  intros U. rewrite lang_Str. split.
  - now apply same_text_uncased.
  - intros ->. now apply same_text_refl_uncased.
Qed.

Lemma lang_only_scope_1_2 w :
  lang true
    (Seq (Str "only") (Seq (plus Space) (Seq (Str "scope") (Seq (star Space)
       (Seq (Str "1") (Seq (star Space) (Seq (Str "/") (Seq (star Space)
          (Str "2"))))))))) w <->
  only_scope_1_2 w.
Proof.
  unfold only_scope_1_2. cbn [lang]. split.
  - intros (w1 & r1 & -> & H1 & s1 & r2 & -> & Hs1 & w2 & r3 & -> & H2
            & s2 & r4 & -> & Hs2 & d1 & r5 & -> & D1 & s3 & r6 & -> & Hs3
            & sl & r7 & -> & SL & s4 & d2 & -> & Hs4 & D2).
    apply lang_Str in H1, H2. apply lang_plus_Space in Hs1.
    apply lang_star_Space in Hs2, Hs3, Hs4.
    apply lang_Str_uncased in D1, SL, D2; try (repeat constructor).
    subst d1 sl d2. exists w1, s1, w2, s2, s3, s4. tauto.
  - intros (w1 & s1 & w2 & s2 & s3 & s4 & -> & H1 & Hs1 & Hne & H2 & Hs2
            & Hs3 & Hs4).
    apply lang_Str in H1, H2.
    assert (P1 : lang true (plus Space) s1)
      by (apply lang_plus_Space; auto).
    apply (lang_star_Space true) in Hs2, Hs3, Hs4.
    assert (D1 : lang true (Str "1") (str "1"))
      by (apply lang_Str_uncased; [repeat constructor|reflexivity]).
    assert (SL : lang true (Str "/") (str "/"))
      by (apply lang_Str_uncased; [repeat constructor|reflexivity]).
    assert (D2 : lang true (Str "2") (str "2"))
      by (apply lang_Str_uncased; [repeat constructor|reflexivity]).
    repeat (eexists; eexists; split; [reflexivity|split; [eassumption|]]).
    exact D2.
Qed.

Lemma lang_scope_3_left_out w :
  lang true
    (Seq (Str "scope") (Seq (star Space) (Seq (Str "3") (Seq (star Space)
       (Group (Alt (Str "excluded") (Alt (Str "later") (Str "deferred"))))))))
    w <->
  scope_3_left_out w.
Proof.
  unfold scope_3_left_out. cbn [lang]. split.
  - intros (w1 & r1 & -> & H1 & s1 & r2 & -> & Hs1 & d & r3 & -> & D
            & s2 & w2 & -> & Hs2 & HW).
    apply lang_Str in H1. apply lang_star_Space in Hs1, Hs2.
    apply lang_Str_uncased in D; [|repeat constructor]. subst d.
    repeat rewrite lang_Str in HW. exists w1, s1, s2, w2. tauto.
  - intros (w1 & s1 & s2 & w2 & -> & H1 & Hs1 & Hs2 & HW).
    apply lang_Str in H1. apply (lang_star_Space true) in Hs1, Hs2.
    repeat rewrite <- lang_Str in HW.
    assert (D : lang true (Str "3") (str "3"))
      by (apply lang_Str_uncased; [repeat constructor|reflexivity]).
    repeat (eexists; eexists; split; [reflexivity|split; [eassumption|]]).
    exact HW.
Qed.

Lemma cherry_found (sent : pystr) :
  search
    (compile
       (Group
          (Alt
             (Seq (Str "only") (Seq (plus Space) (Seq (Str "scope")
                (Seq (star Space) (Seq (Str "1") (Seq (star Space)
                   (Seq (Str "/") (Seq (star Space) (Str "2")))))))))
             (Seq (Str "scope") (Seq (star Space) (Seq (Str "3")
                (Seq (star Space)
                   (Group (Alt (Str "excluded")
                             (Alt (Str "later") (Str "deferred")))))))))) true)
    sent = true <->
  occurs only_scope_1_2 sent \/ occurs scope_3_left_out sent.
Proof.
  rewrite search_plain_iff by reflexivity. unfold occurs. split.
  - intros (pre & w & post & Hs & [L|L]);
      [left; apply lang_only_scope_1_2 in L
      |right; apply lang_scope_3_left_out in L]; now exists pre, w, post.
  - intros [(pre & w & post & Hs & L)|(pre & w & post & Hs & L)];
      exists pre, w, post; (split; [exact Hs|]);
      [left; now apply lang_only_scope_1_2
      |right; now apply lang_scope_3_left_out].
Qed.

(** ** Hits *)

Lemma sentence_hits_idx h i sent :
  In h (sentence_hits (i, sent)) -> sent_idx h = i.
Proof.
  intros H. apply In_sentence_hits in H. destruct H as (rule & _ & H).
  apply In_rule_hits in H. now destruct H as (-> & _).
Qed.

Lemma filter_all {A : Type} (f : A -> bool) (l : list A) :
  (forall x, In x l -> f x = true) -> filter f l = l.
Proof.
  induction l as [|x l IH]; intros H; [reflexivity|]. simpl.
  rewrite (H x (or_introl eq_refl)). f_equal. apply IH.
  intros y Hy. apply H. now right.
Qed.

Lemma filter_none {A : Type} (f : A -> bool) (l : list A) :
  (forall x, In x l -> f x = false) -> filter f l = [].
Proof.
  induction l as [|x l IH]; intros H; [reflexivity|]. simpl.
  rewrite (H x (or_introl eq_refl)). apply IH.
  intros y Hy. apply H. now right.
Qed.

(** The hits of one sentence within the hits of all. *)
Lemma filter_sentence_hits :
  forall (sents : list pystr) k i sent,
    k <= i -> nth_error sents (i - k) = Some sent ->
    filter (fun h => sent_idx h =? i)
      (flat_map sentence_hits (enumerate_from k sents))
    = sentence_hits (i, sent).
Proof.
  induction sents as [|s0 sents IH]; intros k i sent Hk Hn.
  - destruct (i - k); discriminate.
  - cbn [enumerate_from flat_map]. rewrite filter_app.
    destruct (Nat.eq_dec i k) as [->|Hne].
    + rewrite Nat.sub_diag in Hn. injection Hn as ->.
      rewrite filter_all, filter_none; [apply app_nil_r| |].
      * intros h Hh. apply in_flat_map in Hh.
        destruct Hh as ([j s] & Hj & Hh).
        apply In_enumerate_from in Hj. apply sentence_hits_idx in Hh.
        apply Nat.eqb_neq. lia.
      * intros h Hh. apply sentence_hits_idx in Hh. now apply Nat.eqb_eq.
    + rewrite filter_none.
      * simpl. apply IH; [lia|].
        replace (i - k) with (S (i - S k)) in Hn by lia. exact Hn.
      * intros h Hh. apply sentence_hits_idx in Hh. apply Nat.eqb_neq. lia.
Qed.

Lemma sentence_hits_content i j sent :
  map hit_content (sentence_hits (i, sent))
  = map hit_content (sentence_hits (j, sent)).
Proof.
  unfold sentence_hits.
  induction _RULES as [|[[c rx] rid] rules IH]; [reflexivity|].
  cbn [flat_map]. rewrite !map_app, IH. f_equal. unfold rule_hits.
  destruct (Category_eqb c no_3rd && _); [reflexivity|].
  destruct (search rx sent); reflexivity.
Qed.

Lemma sentence_visible (text : option pystr) (s : pystr) :
  In s (_split_sentences text) -> visible s <> [].
Proof.
  intros H. destruct (sentence_shape text s H) as (Hne & Hh & _).
  destruct s as [|c r]; [congruence|]. unfold visible. simpl.
  rewrite (Hh c r eq_refl). discriminate.
Qed.

Lemma length_concat_visible (l : list pystr) :
  (forall s, In s l -> visible s <> []) ->
  length l <= length (visible (concat l)).
Proof.
  induction l as [|s l IH]; intros H; [simpl; lia|].
  cbn [concat]. rewrite visible_app, length_app. simpl length at 1.
  assert (visible s <> []) by (apply H; now left).
  assert (length l <= length (visible (concat l)))
    by (apply IH; intros; apply H; now right).
  destruct (visible s); [congruence|simpl; lia].
Qed.

Lemma sep_free_pairs prev (s : pystr) :
  sep_free prev s = true ->
  forall l y x r, s = l ++ y :: x :: r ->
    ends_sentence y = true -> Unicode.is_space x = false.
Proof.
  intros H l y x r Hs Hy. rewrite Hs in H.
  assert (F : sep_free None (y :: x :: r) = true)
    by (exact (sep_free_app_r _ _ _ H)).
  cbn [sep_free] in F. apply andb_true_iff in F. destruct F as [_ F].
  apply andb_true_iff in F. destruct F as [F _].
  apply negb_true_iff in F. unfold sep_start in F.
  apply orb_false_iff in F. destruct F as [F _]. now rewrite Hy in F.
Qed.

(** * Further properties of the code *)


(** X2: normalizing twice is normalizing once. *)
Theorem normalize_idempotent (text : option pystr) :
  _normalize (Some (_normalize text)) = _normalize text.
Proof.
  destruct text as [t|]; [|reflexivity].
  destruct (normalize_shape t) as (Ht & Hn & Hd & Hh & Hl).
  now apply normalize_fixed.
Qed.

(** X3: normalization touches white space only: the other characters
    come out unchanged and in order. *)
Theorem normalize_keeps_visible (t : pystr) :
  visible (_normalize (Some t)) = visible t.
Proof.
  apply visible_normalize.
Qed.

(** X4: a text normalizes to the empty string exactly when it is white
    space throughout. *)
Theorem normalize_empty_iff_blank (t : pystr) :
  _normalize (Some t) = [] <-> forallb Unicode.is_space t = true.
Proof.
  rewrite <- visible_nil_iff, <- (visible_normalize t). split.
  - now intros ->.
  - intros H. destruct (normalize_shape t) as (_ & _ & _ & Hh & _).
    destruct (_normalize (Some t)) as [|c r]; [reflexivity|].
    unfold visible in H. simpl in H. rewrite (Hh c r eq_refl) in H.
    discriminate.
Qed.

(** X5: a sentence is never empty, neither starts nor ends with white
    space, holds no newline, tab or non-breaking space, and no '.', '?' or
    '!' of it is followed by white space. *)
Theorem sentences_are_clean (text : option pystr) (s : pystr) :
  In s (_split_sentences text) ->
  s <> [] /\
  (forall c r, s = c :: r -> Unicode.is_space c = false) /\
  (forall l c, s = l ++ [c] -> Unicode.is_space c = false) /\
  ~ In NL s /\ ~ In TAB s /\ ~ In NBSP s /\
  (forall l y x r, s = l ++ y :: x :: r ->
     ends_sentence y = true -> Unicode.is_space x = false).
Proof.
  intros H.
  destruct (sentence_shape text s H) as (Hne & Hh & Hl & Hf & l & r & Hu).
  repeat split; auto.
  - exact (sep_free_no_newline _ _ Hf).
  - intros Hin. destruct text as [t|]; [|contradiction H].
    destruct (normalize_shape t) as (Ht & _). apply Ht. rewrite Hu.
    apply in_or_app. right. apply in_or_app. now left.
  - intros Hin. destruct text as [t|]; [|contradiction H].
    destruct (normalize_shape t) as (_ & Hn & _). apply Hn. rewrite Hu.
    apply in_or_app. right. apply in_or_app. now left.
  - exact (sep_free_pairs _ _ Hf).
Qed.

Lemma sentences_are_clean_witness :
  let text := Some (str "  We aim high.  Do we?" ++ [TAB] ++ str "Yes. ") in
  let s := str "Do we?" in
  In s (_split_sentences text) /\
  (s <> [] /\
   (forall c r, s = c :: r -> Unicode.is_space c = false) /\
   (forall l c, s = l ++ [c] -> Unicode.is_space c = false) /\
   ~ In NL s /\ ~ In TAB s /\ ~ In NBSP s /\
   (forall l y x r, s = l ++ y :: x :: r ->
      ends_sentence y = true -> Unicode.is_space x = false)).
Proof.
  intros text s.
  assert (Hin : In s (_split_sentences text))
    by (vm_compute; right; left; reflexivity).
  split; [exact Hin|]. exact (sentences_are_clean text s Hin).
Defined.

(** X6: splitting a sentence gives that sentence back, alone. *)
Theorem sentence_splits_to_itself (text : option pystr) (s : pystr) :
  In s (_split_sentences text) -> _split_sentences (Some s) = [s].
Proof.
  apply split_sentences_fixed.
Qed.

Lemma sentence_splits_to_itself_witness :
  let text := Some (str "We aim high.  Do we? Yes.") in
  let s := str "Do we?" in
  In s (_split_sentences text) /\ _split_sentences (Some s) = [s].
Proof.
  intros text s.
  assert (Hin : In s (_split_sentences text))
    by (vm_compute; right; left; reflexivity).
  split; [exact Hin|]. exact (sentence_splits_to_itself text s Hin).
Defined.

(** X7: splitting loses white space only: the sentences, end to end,
    hold the characters of the text that are not white space, in order. *)
Theorem sentences_keep_visible (t : pystr) :
  visible (concat (_split_sentences (Some t))) = visible t.
Proof.
  apply visible_sentences.
Qed.

(** X8: a text with no newline in which no '.', '?' or '!' is followed by
    white space is one sentence, its normalization (no sentence when that
    is empty). *)
Theorem unpunctuated_text_is_one_sentence (t : pystr) :
  sep_free None t = true ->
  _split_sentences (Some t) =
  match _normalize (Some t) with [] => [] | u => [u] end.
Proof.
  intros H. apply split_sentences_whole. now apply sep_free_normalize.
Qed.

Lemma unpunctuated_text_is_one_sentence_witness :
  let t := str " The U.S.A  reports" ++ [TAB; NBSP] ++ str "scope 3." in
  sep_free None t = true /\
  _split_sentences (Some t) = [str "The U.S.A reports scope 3."].
Proof.
  intros t.
  assert (H : sep_free None t = true) by (vm_compute; reflexivity).
  split; [exact H|].
  exact (unpunctuated_text_is_one_sentence t H).
Defined.

(** X9: a text has no sentence exactly when it is white space throughout,
    and then its scan has no hit. *)
Theorem blank_text_has_no_sentence (t : pystr) (company : option pystr) :
  (_split_sentences (Some t) = [] <-> forallb Unicode.is_space t = true) /\
  (forallb Unicode.is_space t = true ->
   scan (Some t) company =
   mkRuleScanResult []
     (str "sentences=0; hits=0; whitelist_in_sent=third_party")).
Proof.
  assert (E : forallb Unicode.is_space t = true ->
              _split_sentences (Some t) = []).
  { intros H. apply normalize_empty_iff_blank in H.
    unfold _split_sentences. now rewrite H. }
  split; [split; [|exact E]|].
  - intros H. apply visible_nil_iff.
    rewrite <- (visible_sentences t), H. reflexivity.
  - intros H. unfold scan. rewrite (E H). reflexivity.
Qed.

Lemma blank_text_has_no_sentence_witness :
  let t := [SP; TAB; NL; NBSP; 8232%N; SP] in
  forallb Unicode.is_space t = true /\
  scan (Some t) None =
  mkRuleScanResult []
    (str "sentences=0; hits=0; whitelist_in_sent=third_party").
Proof.
  intros t.
  assert (H : forallb Unicode.is_space t = true) by (vm_compute; reflexivity).
  split; [exact H|].
  exact (proj2 (blank_text_has_no_sentence t None) H).
Defined.

(** X10: there are never more sentences than characters that are not
    white space, so never more than six hits for each such character. *)
Theorem sentences_bounded_by_visible (t : pystr) (company : option pystr) :
  length (_split_sentences (Some t)) <= length (visible t) /\
  length (hits (scan (Some t) company)) <= 6 * length (visible t).
Proof.
  assert (L : length (_split_sentences (Some t)) <= length (visible t)).
  { rewrite <- (visible_sentences t). apply length_concat_visible.
    intros s. apply sentence_visible. }
  split; [exact L|].
  assert (length (hits (scan (Some t) company))
          <= 6 * length (_split_sentences (Some t))); [|lia].
  unfold scan, enumerate. cbn [hits].
  rewrite <- (length_enumerate_from (_split_sentences (Some t)) 0).
  apply length_flat_map_le. intros [i sent]. unfold sentence_hits.
  change 6 with (1 * length _RULES).
  apply length_flat_map_le. intros rule. apply length_rule_hits.
Qed.

(** X11: rule 901 (vague) gives a hit for a sentence exactly when one of
    its ten hedging verbs occurs in the sentence, in any case and also
    inside a longer word. *)
Theorem vague_fires_exactly (txt company : option pystr) (i : nat)
    (sent : pystr) :
  nth_error (_split_sentences txt) i = Some sent ->
  ((exists h, In h (hits (scan txt company)) /\ sent_idx h = i /\
              rule_id h = 901%Z /\ cat h = vague)
   <-> occurs is_vague_verb sent).
Proof.
  intros Hn.
  rewrite (rule_hit_iff txt company i sent
             (vague, compile VAGUE_VERBS true, 901%Z) Hn)
    by (unfold _RULES; cbn [In]; tauto).
  cbn [fst snd Category_eqb andb].
  rewrite search_plain_iff by reflexivity.
  rewrite (occurs_iff _ _ sent lang_VAGUE_VERBS). tauto.
Qed.

Lemma vague_fires_exactly_witness :
  let sent := str "Our COMMITMENT stands." in
  nth_error (_split_sentences (Some sent)) 0 = Some sent /\
  ((exists h, In h (hits (scan (Some sent) None)) /\ sent_idx h = 0 /\
              rule_id h = 901%Z /\ cat h = vague)
   <-> occurs is_vague_verb sent).
Proof.
  intros sent.
  assert (Hn : nth_error (_split_sentences (Some sent)) 0 = Some sent)
    by (vm_compute; reflexivity).
  split; [exact Hn|]. exact (vague_fires_exactly (Some sent) None 0 sent Hn).
Defined.

(** X12: rule 402 (misleading) gives a hit for a sentence exactly when
    "renewable electricity" or "green electricity" occurs in it with none
    of the qualifying terms after it in the sentence. *)
Theorem misleading_402_fires_exactly (txt company : option pystr) (i : nat)
    (sent : pystr) :
  nth_error (_split_sentences txt) i = Some sent ->
  ((exists h, In h (hits (scan txt company)) /\ sent_idx h = i /\
              rule_id h = 402%Z /\ cat h = misleading)
   <-> exists pre w rest,
         sent = pre ++ w ++ rest /\ is_scope2_term w /\
         ~ occurs is_scope2_qualifier rest).
Proof.
  intros Hn.
  assert (Hnl : ~ In NL sent).
  { apply (sentences_no_newline txt). eapply nth_error_In. exact Hn. }
  rewrite (rule_hit_iff txt company i sent
             (misleading,
              compile (Seq SCOPE2_AMBIG (NegAhead (Seq dotstar SCOPE2_QUAL)))
                true, 402%Z) Hn)
    by (unfold _RULES; cbn [In]; tauto).
  cbn [fst snd Category_eqb andb].
  rewrite (misleading_402_found sent Hnl). tauto.
Qed.

Lemma misleading_402_fires_exactly_witness :
  let sent := str "We retire certificates for our green electricity." in
  nth_error (_split_sentences (Some sent)) 0 = Some sent /\
  ((exists h, In h (hits (scan (Some sent) None)) /\ sent_idx h = 0 /\
              rule_id h = 402%Z /\ cat h = misleading)
   <-> exists pre w rest,
         sent = pre ++ w ++ rest /\ is_scope2_term w /\
         ~ occurs is_scope2_qualifier rest).
Proof.
  intros sent.
  assert (Hn : nth_error (_split_sentences (Some sent)) 0 = Some sent)
    by (vm_compute; reflexivity).
  split; [exact Hn|].
  exact (misleading_402_fires_exactly (Some sent) None 0 sent Hn).
Defined.

(** X13: rule 303 (misleading) gives a hit for a sentence exactly when
    "avoided emissions" or "enabled emissions" occurs in it with no
    "separate", "disclose" or "outside inventory" after it in the
    sentence. *)
Theorem misleading_303_fires_exactly (txt company : option pystr) (i : nat)
    (sent : pystr) :
  nth_error (_split_sentences txt) i = Some sent ->
  ((exists h, In h (hits (scan txt company)) /\ sent_idx h = i /\
              rule_id h = 303%Z /\ cat h = misleading)
   <-> exists pre w rest,
         sent = pre ++ w ++ rest /\ is_avoided_term w /\
         ~ occurs is_separate_disclosure rest).
Proof.
  intros Hn.
  assert (Hnl : ~ In NL sent).
  { apply (sentences_no_newline txt). eapply nth_error_In. exact Hn. }
  rewrite (rule_hit_iff txt company i sent
             (nth 3 _RULES (vague, compile Eps false, 0%Z)) Hn)
    by (unfold _RULES; cbn [In nth]; tauto).
  cbn [_RULES nth fst snd Category_eqb andb].
  rewrite (misleading_303_found sent Hnl). tauto.
Qed.

Lemma misleading_303_fires_exactly_witness :
  let sent := str "Avoided emissions were large." in
  nth_error (_split_sentences (Some sent)) 0 = Some sent /\
  ((exists h, In h (hits (scan (Some sent) None)) /\ sent_idx h = 0 /\
              rule_id h = 303%Z /\ cat h = misleading)
   <-> exists pre w rest,
         sent = pre ++ w ++ rest /\ is_avoided_term w /\
         ~ occurs is_separate_disclosure rest).
Proof.
  intros sent.
  assert (Hn : nth_error (_split_sentences (Some sent)) 0 = Some sent)
    by (vm_compute; reflexivity).
  split; [exact Hn|].
  exact (misleading_303_fires_exactly (Some sent) None 0 sent Hn).
Defined.

(** X14: rule 202 (cherry) gives a hit for a sentence exactly when the
    sentence says "only scope 1/2" or that scope 3 is "excluded", "later"
    or "deferred", with the white space the pattern allows. *)
Theorem cherry_fires_exactly (txt company : option pystr) (i : nat)
    (sent : pystr) :
  nth_error (_split_sentences txt) i = Some sent ->
  ((exists h, In h (hits (scan txt company)) /\ sent_idx h = i /\
              rule_id h = 202%Z /\ cat h = cherry)
   <-> occurs only_scope_1_2 sent \/ occurs scope_3_left_out sent).
Proof.
  intros Hn.
  rewrite (rule_hit_iff txt company i sent
             (nth 4 _RULES (vague, compile Eps false, 0%Z)) Hn)
    by (unfold _RULES; cbn [In nth]; tauto).
  cbn [_RULES nth fst snd Category_eqb andb].
  rewrite (cherry_found sent). tauto.
Qed.

Lemma cherry_fires_exactly_witness :
  let sent := str "We report only scope 1/2; scope 3 excluded." in
  nth_error (_split_sentences (Some sent)) 0 = Some sent /\
  ((exists h, In h (hits (scan (Some sent) None)) /\ sent_idx h = 0 /\
              rule_id h = 202%Z /\ cat h = cherry)
   <-> occurs only_scope_1_2 sent \/ occurs scope_3_left_out sent).
Proof.
  intros sent.
  assert (Hn : nth_error (_split_sentences (Some sent)) 0 = Some sent)
    by (vm_compute; reflexivity).
  split; [exact Hn|]. exact (cherry_fires_exactly (Some sent) None 0 sent Hn).
Defined.

(** X15: rule 302 (no_3rd) gives a hit for a sentence exactly when a
    neutrality claim linked to offsets or credits occurs in it and no
    standard is named anywhere in the sentence: with the whitelist in
    force, the lookahead of the rule's own pattern decides nothing. *)
Theorem no_3rd_fires_exactly (txt company : option pystr) (i : nat)
    (sent : pystr) :
  nth_error (_split_sentences txt) i = Some sent ->
  ((exists h, In h (hits (scan txt company)) /\ sent_idx h = i /\
              rule_id h = 302%Z /\ cat h = no_3rd)
   <-> occurs offset_claim sent /\ ~ occurs names_standard sent).
Proof.
  intros Hn.
  assert (Hnl : ~ In NL sent).
  { apply (sentences_no_newline txt). eapply nth_error_In. exact Hn. }
  rewrite (rule_hit_iff txt company i sent
             (no_3rd,
              compile (Seq NEUTRAL_OFFSET
                         (NegAhead (Seq dotstar THIRD_PARTY_STD))) true,
              302%Z) Hn)
    by (unfold _RULES; cbn [In]; tauto).
  cbn [fst snd Category_eqb andb].
  exact (no_3rd_found sent Hnl).
Qed.

Lemma no_3rd_fires_exactly_witness :
  let sent := str "Verra aside, we are climate neutral via credits." in
  nth_error (_split_sentences (Some sent)) 0 = Some sent /\
  ((exists h, In h (hits (scan (Some sent) None)) /\ sent_idx h = 0 /\
              rule_id h = 302%Z /\ cat h = no_3rd)
   <-> occurs offset_claim sent /\ ~ occurs names_standard sent).
Proof.
  intros sent.
  assert (Hn : nth_error (_split_sentences (Some sent)) 0 = Some sent)
    by (vm_compute; reflexivity).
  split; [exact Hn|]. exact (no_3rd_fires_exactly (Some sent) None 0 sent Hn).
Defined.

(** X16: the patterns have no word boundaries: a sentence that holds the
    target word "commitment" always gets a hit of rule 901 (vague) as
    well, for the "commit" in it. *)
Theorem commitment_is_also_vague (txt company : option pystr) (i : nat)
    (sent : pystr) :
  nth_error (_split_sentences txt) i = Some sent ->
  occurs (same_text (str "commitment")) sent ->
  exists h, In h (hits (scan txt company)) /\ sent_idx h = i /\
            rule_id h = 901%Z /\ cat h = vague.
Proof.
  intros Hn (pre & w & post & Hs & Hw).
  apply (rule_hit_iff txt company i sent
           (vague, compile VAGUE_VERBS true, 901%Z) Hn);
    [unfold _RULES; cbn [In]; tauto|].
  cbn [fst snd Category_eqb andb]. split; [|reflexivity].
  apply search_plain_iff; [reflexivity|].
  change (str "commitment") with (str "commit" ++ str "ment") in Hw.
  apply same_text_app in Hw. destruct Hw as (w1 & w2 & -> & H1 & _).
  exists pre, w1, (w2 ++ post). split; [now rewrite <- app_assoc in Hs|].
  apply lang_VAGUE_VERBS. exists (str "commit"). split; [|exact H1].
  unfold vague_verbs. cbn [In]. tauto.
Qed.

Lemma commitment_is_also_vague_witness :
  let sent := str "Our Commitment is net zero by 2030." in
  nth_error (_split_sentences (Some sent)) 0 = Some sent /\
  occurs (same_text (str "commitment")) sent /\
  exists h, In h (hits (scan (Some sent) None)) /\ sent_idx h = 0 /\
            rule_id h = 901%Z /\ cat h = vague.
Proof.
  intros sent.
  assert (Hn : nth_error (_split_sentences (Some sent)) 0 = Some sent)
    by (vm_compute; reflexivity).
  assert (Ho : occurs (same_text (str "commitment")) sent).
  { exists (str "Our "), (str "Commitment"), (str " is net zero by 2030.").
    split; [vm_compute; reflexivity|]. repeat constructor. }
  split; [exact Hn|]. split; [exact Ho|].
  exact (commitment_is_also_vague (Some sent) None 0 sent Hn Ho).
Defined.

(** X17: the category and the rule id of a hit are those of one row of
    the rule table, so the id alone tells the category. *)
Theorem hit_names_a_rule (txt company : option pystr) (h : RuleHit) :
  In h (hits (scan txt company)) ->
  In (cat h, rule_id h)
    [ (vague, 901%Z); (lack_metrics, 102%Z); (misleading, 402%Z);
      (misleading, 303%Z); (cherry, 202%Z); (no_3rd, 302%Z) ].
Proof.
  intros H. apply hit_fields in H.
  destruct H as (sent & rule & _ & Hr & -> & -> & _).
  unfold _RULES in Hr. cbn [In] in Hr. split_alts Hr; subst rule;
    cbn [fst snd In]; tauto.
Qed.

Lemma hit_names_a_rule_witness :
  let txt := Some (str "We use renewable electricity.") in
  let h := mkRuleHit misleading 402 (str "We use renewable electricity.") 0 in
  In h (hits (scan txt None)) /\
  In (cat h, rule_id h)
    [ (vague, 901%Z); (lack_metrics, 102%Z); (misleading, 402%Z);
      (misleading, 303%Z); (cherry, 202%Z); (no_3rd, 302%Z) ].
Proof.
  intros txt h.
  assert (Hin : In h (hits (scan txt None)))
    by (vm_compute; left; reflexivity).
  split; [exact Hin|]. exact (hit_names_a_rule txt None h Hin).
Defined.

(** X18: sentences are judged one by one: the hits of a scan at a
    sentence's index are, up to that index, the hits of scanning the
    sentence alone. *)
Theorem sentence_scanned_alone (txt company company' : option pystr)
    (i : nat) (sent : pystr) :
  nth_error (_split_sentences txt) i = Some sent ->
  map hit_content
    (filter (fun h => sent_idx h =? i) (hits (scan txt company)))
  = map hit_content (hits (scan (Some sent) company')).
Proof.
  intros Hn. unfold scan, enumerate. cbn [hits].
  rewrite (filter_sentence_hits (_split_sentences txt) 0 i sent);
    [|lia|now rewrite Nat.sub_0_r].
  rewrite (split_sentences_fixed txt sent (nth_error_In _ _ Hn)).
  cbn [enumerate_from flat_map]. rewrite app_nil_r.
  apply sentence_hits_content.
Qed.

Lemma sentence_scanned_alone_witness :
  let txt := Some (str "We report. We aim to use green electricity.") in
  let sent := str "We aim to use green electricity." in
  nth_error (_split_sentences txt) 1 = Some sent /\
  map hit_content
    (filter (fun h => sent_idx h =? 1) (hits (scan txt None)))
  = map hit_content (hits (scan (Some sent) None)).
Proof.
  intros txt sent.
  assert (Hn : nth_error (_split_sentences txt) 1 = Some sent)
    by (vm_compute; reflexivity).
  split; [exact Hn|].
  exact (sentence_scanned_alone txt None None 1 sent Hn).
Defined.

(** X19: the text of a hit is never empty; it starts with a character
    that is not white space and holds no newline, tab or non-breaking
    space. *)
Theorem hit_text_is_clean (txt company : option pystr) (h : RuleHit) :
  In h (hits (scan txt company)) ->
  text h <> [] /\
  (forall c r, text h = c :: r -> Unicode.is_space c = false) /\
  ~ In NL (text h) /\ ~ In TAB (text h) /\ ~ In NBSP (text h).
Proof.
  intros H. apply hit_fields in H.
  destruct H as (sent & _ & Hn & _ & _ & _ & Ht & _).
  apply nth_error_In in Hn.
  destruct (sentence_shape txt sent Hn) as (Hne & Hh & _ & Hf & l & r & Hu).
  assert (Sub : forall c, In c (text h) -> In c sent).
  { intros c Hc. rewrite Ht in Hc.
    rewrite <- (firstn_skipn 400 sent). apply in_or_app. now left. }
  destruct sent as [|c0 r0]; [congruence|]. rewrite Ht. cbn [firstn].
  split; [discriminate|]. split; [|split; [|split]].
  - intros c r' [= <- _]. exact (Hh c0 r0 eq_refl).
  - intros Hin. apply (sep_free_no_newline _ _ Hf). apply Sub.
    rewrite Ht. exact Hin.
  - intros Hin. destruct txt as [t|]; [|contradiction Hn].
    destruct (normalize_shape t) as (HT & _). apply HT. rewrite Hu.
    apply in_or_app. right. apply in_or_app. left. apply Sub.
    rewrite Ht. exact Hin.
  - intros Hin. destruct txt as [t|]; [|contradiction Hn].
    destruct (normalize_shape t) as (_ & HN & _). apply HN. rewrite Hu.
    apply in_or_app. right. apply in_or_app. left. apply Sub.
    rewrite Ht. exact Hin.
Qed.

Lemma hit_text_is_clean_witness :
  let txt := Some ([NBSP; TAB] ++ str "We aim" ++ [TAB] ++ str "high.") in
  let h := mkRuleHit vague 901 (str "We aim high.") 0 in
  In h (hits (scan txt None)) /\
  (text h <> [] /\
   (forall c r, text h = c :: r -> Unicode.is_space c = false) /\
   ~ In NL (text h) /\ ~ In TAB (text h) /\ ~ In NBSP (text h)).
Proof.
  intros txt h.
  assert (Hin : In h (hits (scan txt None)))
    by (vm_compute; left; reflexivity).
  split; [exact Hin|]. exact (hit_text_is_clean txt None h Hin).
Defined.

(** X20: a scan sees a text through its normalization only: scanning the
    normalized text gives the same result as scanning the text. *)
Theorem scan_of_normalized_text (text company : option pystr) :
  _split_sentences (Some (_normalize text)) = _split_sentences text /\
  scan (Some (_normalize text)) company = scan text company.
Proof.
  assert (E : _split_sentences (Some (_normalize text))
              = _split_sentences text).
  { unfold _split_sentences. now rewrite normalize_idempotent. }
  split; [exact E|]. unfold scan. now rewrite E.
Qed.
